(** * music-ratings: leave-one-out regression and its evaluation

    Shallow embedding of the two functions of [analysis.ipynb] that carry the
    modelling work of the notebook, [loocv_regression] and [evaluate], with
    the pandas and scikit-learn operations they call; and of the cells
    around them: the cleaning of the two rating frames, the genre and decade
    features, the full feature matrix, the three groups of coefficients and
    the ranking of the prediction errors.

    Conventions.
    - A pandas frame is an association list from index labels to row
      contents, in row order; labels may repeat, as a pandas index may.
    - The loop only moves and compares the numbers it handles: there they
      are rationals ([Q]), and the missing marker NaN of a cell is [None].
    - The two metrics of [evaluate] are arithmetic on binary64 floats: the
      frames it joins hold primitive floats, and every operation is the
      IEEE 754 one, rounded to nearest.  The one thing the source does not
      fix is the order in which numpy adds the entries of an array; the sum
      is a parameter of the metrics.
    - Python exceptions are values of [exception]; a computation that may
      raise returns [exception + A].
    - The regression model is a mutable Python object: its state is threaded
      through the calls, together with the text printed by the loop. *)

From Stdlib Require Import Floats.
From Stdlib Require Uint63.
From Stdlib Require Import List Ascii String Bool Arith ZArith Lia Permutation Sorted.
From Stdlib Require Import Psatz.
From Stdlib Require Import QArith.
From Stdlib Require Import DecimalString.
Import ListNotations.

Local Open Scope string_scope.
Local Open Scope Q_scope.
Local Open Scope list_scope.

(** ** Exceptions and fallible computations *)

Inductive exception : Type :=
| KeyError            (* pandas: a label is not in the index *)
| ValueError          (* scikit-learn input validation: NaN or no sample *)
| IndexError          (* [pred[0]] on an empty array *)
| InvalidIndexError   (* pandas: reindexing on a duplicated index *)
| ModelError (msg : string).  (* whatever the model object raises *)

Definition result (A : Type) : Type := (exception + A)%type.

Definition ok {A} (a : A) : result A := inr a.
Definition raise {A} (e : exception) : result A := inl e.

Definition rbind {A B} (r : result A) (k : A -> result B) : result B :=
  match r with
  | inl e => inl e
  | inr a => k a
  end.

(** ** Frames *)

Definition label : Type := string.

Definition DataFrame (A : Type) : Type := list (label * A).

Definition index {A} (df : DataFrame A) : list label := map fst df.

Definition has_label (k : label) (ks : list label) : bool :=
  existsb (String.eqb k) ks.

Definition rows_at {A} (df : DataFrame A) (k : label) : DataFrame A :=
  filter (fun r => String.eqb (fst r) k) df.

(** [df.loc[labels]] with a list of labels: the rows of every label, in the
    order of the labels; a label that is not in the index raises
    [KeyError]. *)
Fixpoint loc {A} (df : DataFrame A) (labels : list label)
  : result (DataFrame A) :=
  match labels with
  | [] => ok []
  | k :: ks =>
      match rows_at df k with
      | [] => raise KeyError
      | r :: rs => rbind (loc df ks) (fun rest => ok ((r :: rs) ++ rest))
      end
  end.

(** [df.drop(k)]: every row labelled [k] is removed; [KeyError] when there
    is none. *)
Definition drop {A} (df : DataFrame A) (k : label) : result (DataFrame A) :=
  if has_label k (index df)
  then ok (filter (fun r => negb (String.eqb (fst r) k)) df)
  else raise KeyError.

(** [data.fillna(fill)]: a new frame, each missing cell replaced. *)
Definition fill_cell (fill : Q) (c : option Q) : Q :=
  match c with
  | Some v => v
  | None => fill
  end.

Definition fillna (data : DataFrame (list (option Q))) (fill : Q)
  : DataFrame (list Q) :=
  map (fun r => (fst r, map (fill_cell fill) (snd r))) data.

(** [pd.DataFrame({"album": albums, "prediction": predictions})
      .sort_values("prediction", ascending=False).set_index('album')].
    pandas sorts with numpy's quicksort, which is not stable: a frame of up
    to 16 rows keeps equal predictions in the order they came in, as this
    definition does, a longer frame may not.  The statements on the result
    use only that it is a rearrangement in descending order, never the
    place of one among equal predictions. *)
Fixpoint insert_desc (x : label * Q) (l : DataFrame Q) : DataFrame Q :=
  match l with
  | [] => [x]
  | y :: l' => if Qle_bool (snd y) (snd x) then x :: y :: l'
               else y :: insert_desc x l'
  end.

Fixpoint sort_values_desc (l : DataFrame Q) : DataFrame Q :=
  match l with
  | [] => []
  | x :: l' => insert_desc x (sort_values_desc l')
  end.

(** ** The leave-one-out loop *)

Section Loocv.

(** The model object: its state, and the two methods the loop calls.
    [fit] mutates the object; [predict] reads it and returns one value per
    row. *)
Variable Model : Type.
Variable fit :
  Model -> DataFrame (list Q) -> DataFrame Q -> result Model.
Variable predict : Model -> DataFrame (list Q) -> result (list Q).

(** What a call does to the outside, in order: the calls to the model's
    methods with their arguments, and the line printed after each fold
    ("Predicted rating for <album>: <pred>"). *)
Inductive event : Type :=
| Fit (X : DataFrame (list Q)) (y : DataFrame Q)
| Predict (row_df : DataFrame (list Q))
| Printed (album : label) (pred : Q).

(** The mutable state a call runs in: the model object it was given and the
    calls and output so far. *)
Record World : Type := mkWorld {
  model : Model;
  trace : list event
}.

Definition Py (A : Type) : Type := World -> result A * World.

Definition ret {A} (a : A) : Py A := fun w => (inr a, w).

Definition bind {A B} (m : Py A) (k : A -> Py B) : Py B :=
  fun w => match m w with
           | (inl e, w') => (inl e, w')
           | (inr a, w') => k a w'
           end.

Definition lift {A} (r : result A) : Py A := fun w => (r, w).

Definition emit (e : event) : Py unit :=
  fun w => (inr tt, mkWorld (model w) (trace w ++ [e])).

Notation "x <- m ;; k" := (bind m (fun x => k))
  (at level 61, m at next level, right associativity).
Notation "m ;;; k" := (bind m (fun _ => k))
  (at level 61, right associativity).

(** [model.fit(X, y)] *)
Definition model_fit (X : DataFrame (list Q)) (y : DataFrame Q) : Py unit :=
  emit (Fit X y) ;;;
  fun w => match fit (model w) X y with
           | inl e => (inl e, w)
           | inr m' => (inr tt, mkWorld m' (trace w))
           end.

(** [model.predict(row_df)] *)
Definition model_predict (row_df : DataFrame (list Q)) : Py (list Q) :=
  emit (Predict row_df) ;;;
  fun w => (predict (model w) row_df, w).

(** [pred[0]] *)
Definition getitem0 (pred : list Q) : result Q :=
  match pred with
  | [] => raise IndexError
  | p :: _ => ok p
  end.

(** One iteration of [for index, _ in my_ratings.iterrows()], on the two
    local lists.  The counter [i] of the source is never read and is left
    out. *)
Definition fold_body (data_f : DataFrame (list Q)) (my_ratings : DataFrame Q)
    (acc : list label * list Q) (idx : label)
  : Py (list label * list Q) :=
  X0 <- lift (loc data_f (index my_ratings)) ;;
  X <- lift (drop X0 idx) ;;
  y <- lift (drop my_ratings idx) ;;
  model_fit X y ;;;
  row_df <- lift (loc data_f [idx]) ;;
  pred <- model_predict row_df ;;
  p0 <- lift (getitem0 pred) ;;
  emit (Printed idx p0) ;;;
  ret (fst acc ++ [idx], snd acc ++ [p0]).

Fixpoint for_each (data_f : DataFrame (list Q)) (my_ratings : DataFrame Q)
    (idxs : list label) (acc : list label * list Q)
  : Py (list label * list Q) :=
  match idxs with
  | [] => ret acc
  | idx :: rest =>
      acc' <- fold_body data_f my_ratings acc idx ;;
      for_each data_f my_ratings rest acc'
  end.

(** [loocv_regression(data, my_ratings, model, fill)], on the model object
    held by the world. *)
Definition loocv_regression (data : DataFrame (list (option Q)))
    (my_ratings : DataFrame Q) (fill : Q) : Py (DataFrame Q) :=
  let data_f := fillna data fill in
  acc <- for_each data_f my_ratings (index my_ratings) ([], []) ;;
  ret (sort_values_desc (combine (fst acc) (snd acc))).

(** The signature's defaults.  [model=Ridge(alpha=100)] is evaluated once,
    when the function is defined: the object [dflt] is the same one in every
    call that leaves the argument out.  [fill = 2]. *)
Definition default_fill : Q := 2.

Record call_result : Type := mkCall {
  returned : result (DataFrame Q);
  events : list event;
  passed_after : option Model;   (* the caller's object after the call *)
  default_after : Model          (* the signature's object after the call *)
}.

Definition call_loocv_regression (dflt : Model)
    (data : DataFrame (list (option Q))) (my_ratings : DataFrame Q)
    (model_arg : option Model) (fill_arg : option Q) : call_result :=
  let fill := match fill_arg with Some f => f | None => default_fill end in
  match model_arg with
  | Some m =>
      let (r, w) := loocv_regression data my_ratings fill (mkWorld m []) in
      mkCall r (trace w) (Some (model w)) dflt
  | None =>
      let (r, w) := loocv_regression data my_ratings fill (mkWorld dflt []) in
      mkCall r (trace w) None (model w)
  end.

End Loocv.

Arguments mkWorld {Model} model trace.
Arguments model {Model} w.
Arguments trace {Model} w.
Arguments mkCall {Model} returned events passed_after default_after.
Arguments returned {Model} c.
Arguments events {Model} c.
Arguments passed_after {Model} c.
Arguments default_after {Model} c.
Arguments fold_body {Model} fit predict data_f my_ratings acc idx _.
Arguments for_each {Model} fit predict data_f my_ratings idxs acc _.
Arguments loocv_regression {Model} fit predict data my_ratings fill _.
Arguments call_loocv_regression {Model} fit predict dflt data my_ratings
  model_arg fill_arg.

(** ** Evaluation of the predictions *)

Notation "x <-? r ;; k" := (rbind r (fun x => k))
  (at level 61, r at next level, right associativity).

Definition lookup {A} (df : DataFrame A) (k : label) : option A :=
  match rows_at df k with
  | [] => None
  | r :: _ => Some (snd r)
  end.

Fixpoint index_equals (a b : list label) : bool :=
  match a, b with
  | [], [] => true
  | x :: a', y :: b' => String.eqb x y && index_equals a' b'
  | _, _ => false
  end.

Fixpoint is_unique (ks : list label) : bool :=
  match ks with
  | [] => true
  | k :: ks' => negb (has_label k ks') && is_unique ks'
  end.

Definition union_index (a b : list label) : list label :=
  a ++ filter (fun k => negb (has_label k a)) b.

(** [pd.concat([predictions, my_ratings], axis = 1)]: an outer join on the
    index, columns [prediction] and [SCORE].  Equal indexes are taken as
    they are; otherwise both frames are reindexed on the union of the
    labels, which pandas refuses for an index with repeated labels. *)
Definition concat_axis1 {A} (predictions my_ratings : DataFrame A)
  : result (DataFrame (option A * option A)) :=
  if index_equals (index predictions) (index my_ratings)
  then ok (map (fun pr => (fst (fst pr), (Some (snd (fst pr)), Some (snd (snd pr)))))
               (combine predictions my_ratings))
  else if is_unique (index predictions) && is_unique (index my_ratings)
  then ok (map (fun k => (k, (lookup predictions k, lookup my_ratings k)))
               (union_index (index predictions) (index my_ratings)))
  else raise InvalidIndexError.

Definition col_prediction {A} (df : DataFrame (option A * option A))
  : list (option A) := map (fun r => fst (snd r)) df.

Definition col_SCORE {A} (df : DataFrame (option A * option A))
  : list (option A) := map (fun r => snd (snd r)) df.

(** scikit-learn's validation of a target array: at least one sample, and
    every entry a finite number, neither NaN (a hole left by the join or a
    NaN of the frame) nor an infinity; [ValueError] otherwise. *)
Fixpoint all_finite (col : list (option float)) : result (list float) :=
  match col with
  | [] => ok []
  | None :: _ => raise ValueError
  | Some v :: col' =>
      if PrimFloat.is_finite v
      then vs <-? all_finite col' ;; ok (v :: vs)
      else raise ValueError
  end.

Definition check_array (col : list (option float)) : result (list float) :=
  match col with
  | [] => raise ValueError
  | _ => all_finite col
  end.

(** The number of samples as a float: numpy converts the integer (below
    2^63) before it divides by it. *)
Definition count (n : nat) : float :=
  PrimFloat.of_uint63 (Uint63.of_Z (Z.of_nat n)).

Section Metrics.

(** [a.sum(axis = 0)] on a column of floats.  numpy adds the entries in an
    order of its own (pairwise, in blocks), which the source does not show:
    the sum is a parameter. *)
Variable np_sum : list float -> float.

(** [np.average(a, axis = 0)] without weights *)
Definition np_average (l : list float) : float :=
  (np_sum l / count (List.length l))%float.

(** [x ** 2] *)
Definition square (x : float) : float := (x * x)%float.

(** [(y_true - y_pred) ** 2] *)
Definition squared_residuals (y_true y_pred : list float) : list float :=
  map (fun tp => square (fst tp - snd tp)%float) (combine y_true y_pred).

(** [x != 0] *)
Definition nonzero (x : float) : bool := negb (x =? 0)%float.

(** [r2_score(y_true, y_pred)].  With fewer than two samples the score is
    NaN.  A zero denominator does not divide: the score is 1 when the
    numerator is zero too and 0 otherwise.  (The weight 1.0 that multiplies
    each squared term and the average over the single output are exact and
    left out.) *)
Definition r2_value (yt yp : list float) : float :=
  if (List.length yp <? 2)%nat then PrimFloat.nan
  else
    let numerator := np_sum (squared_residuals yt yp) in
    let mean := np_average yt in
    let denominator := np_sum (map (fun t => square (t - mean)%float) yt) in
    if nonzero denominator && nonzero numerator
    then (1 - numerator / denominator)%float
    else if nonzero numerator then 0%float
    else 1%float.

Definition r2_score (y_true y_pred : list (option float)) : result float :=
  yt <-? check_array y_true ;;
  yp <-? check_array y_pred ;;
  ok (r2_value yt yp).

(** [mean_squared_error(y_true, y_pred, squared = ...)] *)
Definition mean_squared_error (y_true y_pred : list (option float))
    (squared : bool) : result float :=
  yt <-? check_array y_true ;;
  yp <-? check_array y_pred ;;
  let output_errors := np_average (squared_residuals yt yp) in
  ok (if squared then output_errors else PrimFloat.sqrt output_errors).

(** [evaluate(predictions, my_ratings)] returns [(r2, rmse)]. *)
Definition evaluate (predictions my_ratings : DataFrame float)
  : result (float * float) :=
  df <-? concat_axis1 predictions my_ratings ;;
  r2 <-? r2_score (col_SCORE df) (col_prediction df) ;;
  rmse <-? mean_squared_error (col_SCORE df) (col_prediction df) false ;;
  ok (r2, rmse).

End Metrics.

(** The entries added one after the other from the left, starting from 0:
    what numpy does on the short columns of the examples. *)
Definition sequential_sum (l : list float) : float :=
  fold_left PrimFloat.add l 0%float.

(** ** Two model objects to run the loop on *)

(** The average of exact rationals, for the two example regressors and for
    the row means of the ratings. *)
Definition qsum (l : list Q) : Q := fold_right Qplus 0 l.

Definition average (l : list Q) : Q :=
  qsum l / inject_Z (Z.of_nat (List.length l)).

(** A regressor that predicts the average of the targets it was fit on;
    [fit] forgets what the object held before, as scikit-learn's estimators
    do. *)
Module MeanModel.
Definition t : Type := Q.
Definition fit (m : t) (X : DataFrame (list Q)) (y : DataFrame Q)
  : result t := ok (Qred (average (map snd y))).
Definition predict (m : t) (X : DataFrame (list Q)) : result (list Q) :=
  ok (map (fun _ => m) X).
End MeanModel.

(** A warm-started regressor: [fit] starts from the value the object holds
    and moves it halfway to the average of the targets. *)
Module WarmModel.
Definition t : Type := Q.
Definition fit (m : t) (X : DataFrame (list Q)) (y : DataFrame Q)
  : result t := ok (Qred ((m + average (map snd y)) / 2)).
Definition predict (m : t) (X : DataFrame (list Q)) : result (list Q) :=
  ok (map (fun _ => m) X).
End WarmModel.

(** Example frames: the spec's end-to-end scenario (with one entry
    missing), its key-mismatch example and its zero-variance example. *)
Definition features_ABC : DataFrame (list (option Q)) :=
  [("A", [Some 1; Some 0]); ("B", [Some 0; None]); ("C", [Some 1; Some 1])].

Definition target_ABC : DataFrame Q := [("A", 1); ("B", 2); ("C", 3)].

Definition features_A : DataFrame (list (option Q)) :=
  [("A", [Some 1; Some 2])].

Definition target_AB : DataFrame Q := [("A", 4); ("B", 3)].

Definition truth_333 : DataFrame float :=
  [("A", 3%float); ("B", 3%float); ("C", 3%float)].

Definition predictions_421 : DataFrame float :=
  [("C", 4%float); ("B", 2%float); ("A", 1%float)].

Definition truth_123 : DataFrame float :=
  [("A", 1%float); ("B", 2%float); ("C", 3%float)].




(** A model object that was never fit, and the world of a call on it. *)
Definition unfitted : Q := 0.

Definition world0 : World Q := mkWorld unfitted [].

(** Two calls in a row on the same warm-started object, passed by the
    caller. *)
Definition warm_first : call_result Q :=
  call_loocv_regression WarmModel.fit WarmModel.predict unfitted
    features_ABC target_ABC (Some unfitted) None.

Definition warm_second : call_result Q :=
  call_loocv_regression WarmModel.fit WarmModel.predict
    (default_after warm_first) features_ABC target_ABC
    (passed_after warm_first) None.

(** A call that leaves the model argument out. *)
Definition mean_default : call_result Q :=
  call_loocv_regression MeanModel.fit MeanModel.predict unfitted
    features_ABC target_ABC None None.

(** ** Vocabulary of the statements *)

(** The spec's training inputs of the fold that holds out [k]: the feature
    rows of all target keys except [k], and the target values of all keys
    except [k]. *)
Definition training_features (data_f : DataFrame (list Q))
    (my_ratings : DataFrame Q) (k : label) : DataFrame (list Q) :=
  flat_map (rows_at data_f)
           (filter (fun k' => negb (String.eqb k' k)) (index my_ratings)).

Definition training_targets (my_ratings : DataFrame Q) (k : label)
  : DataFrame Q :=
  filter (fun r => negb (String.eqb (fst r) k)) my_ratings.

(** The arguments of the calls to [model.fit], in order. *)
Definition fit_calls (es : list event)
  : list (DataFrame (list Q) * DataFrame Q) :=
  flat_map (fun e => match e with Fit X y => [(X, y)] | _ => [] end) es.

(** An event that handles feature rows takes them from the frame [df]. *)
Definition drawn_from (df : DataFrame (list Q)) (e : event) : Prop :=
  match e with
  | Fit X _ => incl X df
  | Predict row_df => incl row_df df
  | Printed _ _ => True
  end.

(** The feature matrix without the rows whose label is not a target key. *)
Definition restrict_to_target {A} (data : DataFrame A)
    (my_ratings : DataFrame Q) : DataFrame A :=
  filter (fun r => has_label (fst r) (index my_ratings)) data.

(** Descending order of prediction. *)
Definition pred_ge (a b : label * Q) : Prop := snd b <= snd a.

(** The object and the fill value a call works with. *)
Definition model_used {Model} (dflt : Model) (model_arg : option Model)
  : Model :=
  match model_arg with Some m => m | None => dflt end.

Definition fill_used (fill_arg : option Q) : Q :=
  match fill_arg with Some f => f | None => default_fill end.

(** The value a frame of floats holds at a label (NaN when the label is
    missing). *)
Definition value_at (df : DataFrame float) (k : label) : float :=
  match lookup df k with Some v => v | None => PrimFloat.nan end.


(** The ground truth has a single value. *)
Definition zero_variance (my_ratings : DataFrame float) : Prop :=
  exists v, forall k t, In (k, t) my_ratings -> (t =? v)%float = true.

(** Every entry of a frame is a finite number. *)
Definition all_values_finite (df : DataFrame float) : Prop :=
  forall k v, In (k, v) df -> PrimFloat.is_finite v = true.


Definition sums_nonneg (np_sum : list float -> float) : Prop :=
  forall l, Forall (fun x => (0 <=? x)%float = true) l ->
            (0 <=? np_sum l)%float = true.

(** On the IEEE 754 reading of a float.  A float that is not below 0: a zero, or a number or infinity with the
    sign bit clear. *)
Definition unsigned (x : spec_float) : Prop :=
  match x with
  | S754_zero _ => True
  | S754_infinity s | S754_finite s _ _ => s = false
  | S754_nan => False
  end.

(** A float that is not NaN and whose sign bit is [s]. *)
Definition signed (s : bool) (x : spec_float) : Prop :=
  match x with
  | S754_zero s' | S754_infinity s' | S754_finite s' _ _ => s' = s
  | S754_nan => False
  end.

(** The spec's words for the filled copy of the feature matrix: the same
    rows under the same labels, an entry that is present kept as it is, a
    missing entry replaced by the fill value. *)
Definition filled_entry (fill : Q) (c0 : option Q) (c : Q) : Prop :=
  match c0 with
  | Some v => c = v
  | None => c = fill
  end.

Definition filled_copy (fill : Q) (data : DataFrame (list (option Q)))
    (data_f : DataFrame (list Q)) : Prop :=
  Forall2 (fun r0 r => fst r = fst r0 /\
                       Forall2 (filled_entry fill) (snd r0) (snd r))
          data data_f.

(** The lines printed, in order. *)
Definition printed (es : list event)
  : list (label * Q) :=
  flat_map (fun e => match e with Printed k p => [(k, p)] | _ => [] end) es.

(** One object under successive calls of its [fit]: the state it ends in. *)
Fixpoint refit {Model}
    (fit : Model -> DataFrame (list Q) -> DataFrame Q -> result Model)
    (m : Model) (calls : list (DataFrame (list Q) * DataFrame Q))
  : result Model :=
  match calls with
  | [] => ok m
  | (X, y) :: rest => rbind (fit m X y) (fun m' => refit fit m' rest)
  end.

(** The object a call works on, after the call. *)
Definition object_after {Model} (c : call_result Model) : Model :=
  match passed_after c with Some m => m | None => default_after c end.

(** ** Vocabulary for the loop as a whole *)

(** What the fold that holds out [k] does to the outside when it predicts
    [p]. *)
Definition fold_events (data_f : DataFrame (list Q)) (my_ratings : DataFrame Q)
    (kp : label * Q) : list event :=
  [ Fit (training_features data_f my_ratings (fst kp))
        (training_targets my_ratings (fst kp));
    Predict (rows_at data_f (fst kp));
    Printed (fst kp) (snd kp) ].

(** The prediction of the fold that holds out [k], computed on its own:
    fit an object that holds [m0], predict the held-out rows, keep the
    first value. *)
Definition fold_prediction {Model}
    (fit : Model -> DataFrame (list Q) -> DataFrame Q -> result Model)
    (predict : Model -> DataFrame (list Q) -> result (list Q))
    (m0 : Model) (data_f : DataFrame (list Q)) (my_ratings : DataFrame Q)
    (k : label) : result Q :=
  rbind (fit m0 (training_features data_f my_ratings k)
                (training_targets my_ratings k))
        (fun m => rbind (predict m (rows_at data_f k)) getitem0).

(** The folds one after the other, up to the first that raises. *)
Fixpoint all_folds (f : label -> result Q) (ks : list label)
  : result (list Q) :=
  match ks with
  | [] => ok []
  | k :: ks' =>
      rbind (f k) (fun p => rbind (all_folds f ks') (fun ps => ok (p :: ps)))
  end.

(** A feature matrix without a missing entry. *)
Definition complete (data : DataFrame (list (option Q))) : Prop :=
  forall k row, In (k, row) data -> ~ In None row.

(** ** Cleaning: the albums rated in both frames *)

(** [albums_intersection =
       list(set(user_ratings.index).intersection(set(my_ratings.index)))]:
    the labels that are in both indexes, each once.  Python does not fix
    the order in which a set is listed, so [albums] is any such list. *)
Definition lists_intersection (albums a b : list label) : Prop :=
  NoDup albums /\ forall k, In k albums <-> In k a /\ In k b.

(** One such list: the labels of [a] that are in [b], in the order of
    [a]. *)
Definition intersection (a b : list label) : list label :=
  nodup string_dec (filter (fun k => has_label k b) a).

(** [my_ratings = my_ratings.loc[albums_intersection]] and
    [user_ratings = user_ratings.loc[albums_intersection]]. *)
Definition clean {A B} (albums : list label)
    (my_ratings : DataFrame A) (user_ratings : DataFrame B)
  : result (DataFrame A * DataFrame B) :=
  my' <-? loc my_ratings albums ;;
  user' <-? loc user_ratings albums ;;
  ok (my', user').

(** Two frames to clean: B is rated by both, C only by me, D only by the
    others. *)
Definition my_ratings_ABC : DataFrame Q := [("B", 2); ("C", 1); ("A", 4)].

Definition user_ratings_ABD : DataFrame (list (option Q)) :=
  [("A", [Some 4; None]); ("B", [None; Some 3]); ("D", [Some 5; Some 5])].

(** A feature matrix without a missing entry. *)
Definition features_AC : DataFrame (list (option Q)) :=
  [("A", [Some 1; Some 0]); ("C", [Some 1; Some 1])].

(** ** Genres *)

(** [word in genres] on two Python strings: [word] occurs in [genres] as a
    run of consecutive characters. *)
Fixpoint startswith (s word : string) {struct word} : bool :=
  match word with
  | EmptyString => true
  | String a word' =>
      match s with
      | EmptyString => false
      | String b s' => Ascii.eqb a b && startswith s' word'
      end
  end.

Fixpoint contains (word s : string) : bool :=
  if startswith s word then true
  else match s with
       | EmptyString => false
       | String _ s' => contains word s'
       end.

(** [check_for_a_word(word)] returns the test [word in genre_list]; the
    notebook applies it to the genre string of an album, one string with
    all the tags. *)
Definition check_for_a_word (word : string) : string -> bool :=
  fun genre_list => contains word genre_list.

(** [words_to_check] *)
Definition words_to_check : list string :=
  ["Rock"; "Punk"; "Pop"; "Post"; "Noise"; "Experimental"; "Rap"; "Hop";
   "Jazz"; "Metal"; "Ambient"; "Indie"; "Art"; "Hardcore"; "Folk"; "Garage";
   "Psychedel"; "Songwriter"; "Alternative"; "Industrial"; "Wave";
   "Progressive"; "Avant"; "Techno"; "Synth"; "Math"; "Electronic"; "Jangle";
   "Drone"; "Hypnagogic"; "Chamber"; "Contemporary"; "Power"].

(** [metadata['Is_'+word] = metadata.genres.apply(check_for_a_word(word)) * 1],
    for every word: one 0/1 column per word, here the row of one album. *)
Definition genre_flags (genres : string) : list (string * Z) :=
  map (fun word => (("Is_" ++ word)%string,
                    if check_for_a_word word genres then 1%Z else 0%Z))
      words_to_check.

(** [genres.split(', ')]: the pieces between the occurrences of ", ", found
    from the left. *)
Definition cons_first (c : Ascii.ascii) (pieces : list string) : list string :=
  match pieces with
  | [] => [String c EmptyString]
  | t :: ts => String c t :: ts
  end.

Fixpoint split (s : string) : list string :=
  match s with
  | EmptyString => [EmptyString]
  | String c s' =>
      match s' with
      | String c2 s'' =>
          if Ascii.eqb c ","%char && Ascii.eqb c2 " "%char
          then EmptyString :: split s''
          else cons_first c (split s')
      | EmptyString => cons_first c (split s')
      end
  end.

(** [', '.join(tags)] *)
Fixpoint join (tags : list string) : string :=
  match tags with
  | [] => EmptyString
  | t :: rest =>
      match rest with
      | [] => t
      | _ :: _ => (t ++ ", " ++ join rest)%string
      end
  end.

(** [genres_df[1].explode()]: one row per album and tag. *)
Definition explode (genres_split : DataFrame (list string)) : DataFrame string :=
  flat_map (fun r => map (fun tag => (fst r, tag)) (snd r)) genres_split.

(** [genres_split]: the album and the tags of its genre string, for every
    row of [metadata]. *)
(** [genres_df]: [genres_split] put in a frame with the columns 0 (the
    album) and 1 (its tags), indexed by column 0 and exploded.  A frame
    built from the empty list has no column: on a [metadata] without a row,
    [set_index(0)] raises [KeyError]. *)
Definition genres_split (metadata : DataFrame string)
  : DataFrame (list string) :=
  map (fun r => (fst r, split (snd r))) metadata.

Definition genres_df (metadata : DataFrame string) : result (DataFrame string) :=
  match genres_split metadata with
  | [] => raise KeyError
  | _ :: _ => ok (explode (genres_split metadata))
  end.

(** A word that holds no comma and does not begin with a space. *)
Fixpoint no_comma (w : string) : bool :=
  match w with
  | EmptyString => true
  | String c w' => negb (Ascii.eqb c ","%char) && no_comma w'
  end.

Definition plain_word (w : string) : bool :=
  match w with
  | EmptyString => false
  | String c _ => negb (Ascii.eqb c " "%char) && no_comma w
  end.

(** ** Decades *)

(** [10*np.floor(metadata.year/10)], on whole years. *)
Definition decade (year : Z) : Z := (10 * (year / 10))%Z.

(** The distinct values of a column, in increasing order. *)
Fixpoint insert_unique (x : Z) (l : list Z) : list Z :=
  match l with
  | [] => [x]
  | y :: l' =>
      if (x <? y)%Z then x :: y :: l'
      else if (x =? y)%Z then y :: l'
      else y :: insert_unique x l'
  end.

Definition sorted_unique (l : list Z) : list Z :=
  fold_right insert_unique [] l.

(** The text of a whole-valued float: [str(1990.0)] is "1990.0".  This is
    Python's text for whole values below 10^16 in absolute value, the
    years of the notebook among them; larger floats print in exponent form
    and are not covered. *)
Definition str_float (z : Z) : string :=
  (NilZero.string_of_int (Z.to_int z) ++ ".0")%string.

(** [pd.get_dummies(column, prefix = 'Is')]: one 0/1 column per distinct
    value, named after the value, in increasing order of the values; the
    rows keep their labels. *)
Definition indicator (v level : Z) : Z := if (level =? v)%Z then 1%Z else 0%Z.

Definition get_dummies (column : DataFrame Z)
  : list string * DataFrame (list Z) :=
  let levels := sorted_unique (map snd column) in
  (map (fun level => ("Is_" ++ str_float level)%string) levels,
   map (fun r => (fst r, map (indicator (snd r)) levels)) column).

(** The decade columns added to [metadata]. *)
Definition decade_dummies (year : DataFrame Z)
  : list string * DataFrame (list Z) :=
  get_dummies (map (fun r => (fst r, decade (snd r))) year).

Definition zsum (l : list Z) : Z := fold_right Z.add 0%Z l.

(** ** The three groups of coefficients *)

(** [~coefs.feature.str.startswith('Is')]: the other users. *)
Definition user_coef (feature : string) : bool :=
  negb (startswith feature "Is").

(** [startswith('Is_')], then neither '19' nor '20' in the name: the
    genres. *)
Definition genre_coef (feature : string) : bool :=
  startswith feature "Is_"
  && (negb (contains "19" feature) && negb (contains "20" feature)).

(** [startswith('Is_')], then '19' or '20' in the name: the decades. *)
Definition decade_coef (feature : string) : bool :=
  startswith feature "Is_"
  && (contains "19" feature || contains "20" feature).

(** [coefs.loc[mask]] *)
Definition select {A} (mask : string -> bool) (coefs : list (string * A))
  : list (string * A) :=
  filter (fun r => mask (fst r)) coefs.

(** ** How sparse the ratings are, and their row means *)

Definition isnull_count (df : DataFrame (list (option Q))) : nat :=
  List.length (filter (fun c => match c with None => true | Some _ => false end)
                      (flat_map snd df)).

(** [NaN_share = user_ratings.isnull().sum().sum() / np.prod(user_ratings.shape)]
    for a frame of [ncols] columns; 0/0 is NaN. *)
Definition NaN_share (df : DataFrame (list (option Q))) (ncols : nat)
  : option Q :=
  match (List.length df * ncols)%nat with
  | O => None
  | S n => Some (inject_Z (Z.of_nat (isnull_count df))
                 / inject_Z (Z.of_nat (S n)))
  end.

(** Every row has the frame's number of columns. *)
Definition rectangular (df : DataFrame (list (option Q))) (ncols : nat) : Prop :=
  forall k row, In (k, row) df -> List.length row = ncols.

(** The ratings a row holds. *)
Definition present (row : list (option Q)) : list Q :=
  flat_map (fun c => match c with Some v => [v] | None => [] end) row.

(** [user_ratings.mean(axis=1)]: the mean of the ratings present in each
    row, NaN for a row without a rating. *)
Definition row_mean (row : list (option Q)) : option Q :=
  match present row with
  | [] => None
  | v :: vs => Some (average (v :: vs))
  end.

Definition mean_axis1 (df : DataFrame (list (option Q))) : DataFrame (option Q) :=
  map (fun r => (fst r, row_mean (snd r))) df.

(** ** The largest errors *)

(** [score_pred_C['diff'] = score_pred_C.SCORE - score_pred_C.prediction],
    on the joined frame of predictions and scores. *)
Definition diff_column (score_pred : DataFrame (option Q * option Q))
  : DataFrame (option Q) :=
  map (fun r => (fst r,
                 match snd r with
                 | (Some prediction, Some SCORE) => Some (SCORE - prediction)
                 | _ => None
                 end)) score_pred.

Fixpoint insert_asc (x : label * Q) (l : DataFrame Q) : DataFrame Q :=
  match l with
  | [] => [x]
  | y :: l' => if Qle_bool (snd x) (snd y) then x :: y :: l'
               else y :: insert_asc x l'
  end.

Fixpoint sort_values_asc (l : DataFrame Q) : DataFrame Q :=
  match l with
  | [] => []
  | x :: l' => insert_asc x (sort_values_asc l')
  end.

Definition numeric_rows (col : DataFrame (option Q)) : DataFrame Q :=
  flat_map (fun r => match snd r with Some v => [(fst r, v)] | None => [] end) col.

Definition nan_rows (col : DataFrame (option Q)) : DataFrame (option Q) :=
  filter (fun r => match snd r with None => true | Some _ => false end) col.

(** [sort_values('diff', ascending = ...)]: the rows with a number in the
    given order, then the rows with NaN. *)
Definition sort_values_na (ascending : bool) (col : DataFrame (option Q))
  : DataFrame (option Q) :=
  map (fun r => (fst r, Some (snd r)))
      (if ascending then sort_values_asc (numeric_rows col)
       else sort_values_desc (numeric_rows col))
  ++ nan_rows col.

(** [.head()]: the first five rows. *)
Definition head {A} (l : list A) : list A := firstn 5 l.

(** The order of the rows after sorting: numbers in the given order, NaN
    after every number. *)
Definition before_na (ascending : bool) (a b : label * option Q) : Prop :=
  match snd a, snd b with
  | Some x, Some y => if ascending then x <= y else y <= x
  | _, None => True
  | None, Some _ => False
  end.

(** ** More example frames *)

Definition metadata_genres : DataFrame string :=
  [("A", "Post-Punk, Art Rock"); ("B", "Hip Hop")].

Definition metadata_year : DataFrame Z :=
  [("A", 1994%Z); ("B", 1977%Z); ("C", 1990%Z)].

Definition coefs_example : list (string * Q) :=
  [("Anna", 1 # 10); ("Is_Punk", 2 # 10); ("Is_1990.0", - (1 # 10))].

Definition score_pred_example : DataFrame (option Q * option Q) :=
  [("A", (Some 3, Some 4)); ("B", (Some 4, Some 1)); ("C", (Some 2, Some 2));
   ("D", (Some 1, Some 5)); ("E", (Some 3, None)); ("F", (Some 5, Some 3));
   ("G", (Some 2, Some 3))].

(** The target vector with the score of album [k] changed to [v]. *)
Definition set_score (my_ratings : DataFrame Q) (k : label) (v : Q)
  : DataFrame Q :=
  map (fun r => if String.eqb (fst r) k then (fst r, v) else r) my_ratings.

(** ** The full feature matrix *)

Definition nan_row (ncols : nat) : list (option Q) := repeat None ncols.

(** [pd.concat([left, right], axis = 1)] on two frames of feature columns:
    the rows side by side.  Equal indexes are taken as they are; otherwise
    both frames are reindexed on the union of the labels, a missing row
    becoming NaN, which pandas refuses for an index with repeated labels. *)
Definition concat_columns (left right : DataFrame (list (option Q)))
    (ncols_left ncols_right : nat) : result (DataFrame (list (option Q))) :=
  if index_equals (index left) (index right)
  then ok (map (fun pr => (fst (fst pr), snd (fst pr) ++ snd (snd pr)))
               (combine left right))
  else if is_unique (index left) && is_unique (index right)
  then ok (map (fun k =>
                  (k, match lookup left k with
                      | Some row => row
                      | None => nan_row ncols_left
                      end
                      ++ match lookup right k with
                         | Some row => row
                         | None => nan_row ncols_right
                         end))
               (union_index (index left) (index right)))
  else raise InvalidIndexError.

(** [full_data = pd.concat([user_ratings,
       metadata.drop(columns = [...]).loc[user_ratings.index]], axis = 1)],
    on the metadata frame with its feature columns only. *)
Definition full_data (user_ratings metadata_features : DataFrame (list (option Q)))
    (ncols_user ncols_metadata : nat) : result (DataFrame (list (option Q))) :=
  m <-? loc metadata_features (index user_ratings) ;;
  concat_columns user_ratings m ncols_user ncols_metadata.

(** The row a frame holds at a label (empty when the label is missing). *)
Definition row_at (df : DataFrame (list (option Q))) (k : label)
  : list (option Q) :=
  match lookup df k with Some row => row | None => [] end.

Definition metadata_features_AB : DataFrame (list (option Q)) :=
  [("B", [Some 0; Some 1]); ("A", [Some 1; Some 0]); ("E", [Some 1; Some 1])].

(** * Properties *)

(** ** Frames *)

Lemma has_label_In (k : label) (ks : list label) :
  has_label k ks = true <-> In k ks.
Proof.
  unfold has_label. rewrite existsb_exists. split.
  - intros [x [Hin Heq]]. apply String.eqb_eq in Heq. now subst.
  - intros Hin. exists k. split; [assumption | apply String.eqb_refl].
Qed.

Lemma has_label_false (k : label) (ks : list label) :
  has_label k ks = false <-> ~ In k ks.
Proof.
  rewrite <- has_label_In. destruct (has_label k ks); split; congruence.
Qed.

Lemma In_rows_at {A} (df : DataFrame A) (k : label) (r : label * A) :
  In r (rows_at df k) <-> In r df /\ fst r = k.
Proof.
  unfold rows_at. rewrite filter_In, String.eqb_eq. tauto.
Qed.

Lemma rows_at_nil {A} (df : DataFrame A) (k : label) :
  rows_at df k = [] <-> ~ In k (index df).
Proof.
  unfold index. split.
  - intros Hnil Hin. apply in_map_iff in Hin. destruct Hin as [r [Hk Hr]].
    assert (Hin : In r (rows_at df k)) by (apply In_rows_at; auto).
    rewrite Hnil in Hin. exact Hin.
  - intros Hnot. destruct (rows_at df k) as [|r rs] eqn:E; [reflexivity|].
    exfalso. apply Hnot.
    assert (Hin : In r (rows_at df k)) by (rewrite E; now left).
    apply In_rows_at in Hin. destruct Hin as [Hin Hk].
    apply in_map_iff. now exists r.
Qed.

Lemma index_rows_at {A} (df : DataFrame A) (k : label) :
  Forall (fun r => fst r = k) (rows_at df k).
Proof.
  apply Forall_forall. intros r Hr. now apply In_rows_at in Hr.
Qed.

Lemma loc_missing {A} (df : DataFrame A) (labels : list label) (k : label) :
  In k labels -> ~ In k (index df) -> loc df labels = raise KeyError.
Proof.
  induction labels as [|k' ks IH]; simpl; [tauto|].
  intros [Heq | Hin] Hnot.
  - subst k'. apply rows_at_nil in Hnot. now rewrite Hnot.
  - destruct (rows_at df k') as [|r rs]; [reflexivity|].
    rewrite (IH Hin Hnot). reflexivity.
Qed.

Lemma loc_present {A} (df : DataFrame A) (labels : list label) :
  (forall k, In k labels -> In k (index df)) ->
  loc df labels = ok (flat_map (rows_at df) labels).
Proof.
  induction labels as [|k ks IH]; simpl; intros Hall; [reflexivity|].
  destruct (rows_at df k) as [|r rs] eqn:E.
  - exfalso. apply rows_at_nil in E. apply E, Hall. now left.
  - rewrite IH by (intros; apply Hall; now right). reflexivity.
Qed.

Lemma loc_inv {A} (df : DataFrame A) (labels : list label) (X : DataFrame A) :
  loc df labels = ok X ->
  X = flat_map (rows_at df) labels /\ (forall k, In k labels -> In k (index df)).
Proof.
  revert X. induction labels as [|k ks IH]; simpl; intros X H.
  - inversion H. split; [reflexivity | tauto].
  - destruct (rows_at df k) as [|r rs] eqn:E; [discriminate|].
    destruct (loc df ks) as [e|rest] eqn:E'; simpl in H; [discriminate|].
    destruct (IH rest eq_refl) as [Hrest Hall]. inversion H. subst.
    split; [reflexivity|].
    intros k' [Hk | Hk]; [subst k' | now apply Hall].
    destruct (in_dec string_dec k (index df)) as [Hin | Hnot]; [assumption|].
    apply rows_at_nil in Hnot. congruence.
Qed.

Lemma index_fillna (data : DataFrame (list (option Q))) (fill : Q) :
  index (fillna data fill) = index data.
Proof.
  unfold index, fillna. rewrite map_map. reflexivity.
Qed.

Lemma index_flat_map_rows_at {A} (df : DataFrame A) (labels : list label) (k : label) :
  In k (index (flat_map (rows_at df) labels)) -> In k labels.
Proof.
  unfold index. intros H. apply in_map_iff in H. destruct H as [r [Hk Hr]].
  apply in_flat_map in Hr. destruct Hr as [k' [Hk' Hr]].
  apply In_rows_at in Hr. destruct Hr as [_ Hr]. congruence.
Qed.

Lemma In_index_flat_map_rows_at {A} (df : DataFrame A) (labels : list label) (k : label) :
  In k labels -> In k (index df) -> In k (index (flat_map (rows_at df) labels)).
Proof.
  intros Hl Hd. unfold index in *. apply in_map_iff in Hd.
  destruct Hd as [r [Hk Hr]]. apply in_map_iff. exists r. split; [assumption|].
  apply in_flat_map. exists k. split; [assumption|]. now apply In_rows_at.
Qed.

Lemma rows_at_filter_label {A} (P : label -> bool) (df : DataFrame A) (k : label) :
  P k = true -> rows_at (filter (fun r => P (fst r)) df) k = rows_at df k.
Proof.
  intros HP. unfold rows_at, DataFrame, label in *.
  induction df as [|r df IH]; simpl; [reflexivity|].
  destruct (P (fst r)) eqn:EP; simpl.
  - now rewrite IH.
  - match goal with
    | |- context [if ?c then _ else _] => destruct c eqn:Ek
    end; [|apply IH].
    apply String.eqb_eq in Ek. congruence.
Qed.

Lemma loc_filter_label {A} (P : label -> bool) (df : DataFrame A) (labels : list label) :
  (forall k, In k labels -> P k = true) ->
  loc (filter (fun r => P (fst r)) df) labels = loc df labels.
Proof.
  induction labels as [|k ks IH]; simpl; intros HP; [reflexivity|].
  rewrite rows_at_filter_label by (apply HP; now left).
  rewrite IH by (intros; apply HP; now right). reflexivity.
Qed.

Lemma fillna_filter_label (P : label -> bool) (data : DataFrame (list (option Q))) (fill : Q) :
  fillna (filter (fun r => P (fst r)) data) fill
  = filter (fun r => P (fst r)) (fillna data fill).
Proof.
  unfold fillna. induction data as [|r data IH]; simpl; [reflexivity|].
  destruct (P (fst r)); simpl; now rewrite IH.
Qed.

Lemma drop_present {A} (df : DataFrame A) (k : label) :
  In k (index df) ->
  drop df k = ok (filter (fun r => negb (String.eqb (fst r) k)) df).
Proof.
  intros Hin. unfold drop. apply has_label_In in Hin. now rewrite Hin.
Qed.

(** ** The loop *)

Section LoocvFacts.

Variable Model : Type.
Variable fit :
  Model -> DataFrame (list Q) -> DataFrame Q -> result Model.
Variable predict : Model -> DataFrame (list Q) -> result (list Q).

Local Abbreviation World := (World Model).

(** One iteration, step by step. *)
Lemma fold_body_eq data_f my_ratings acc idx (w : World) :
  fold_body fit predict data_f my_ratings acc idx w =
  match rbind (loc data_f (index my_ratings)) (fun X0 => drop X0 idx) with
  | inl e => (inl e, w)
  | inr X =>
    match drop my_ratings idx with
    | inl e => (inl e, w)
    | inr y =>
      let t1 := trace w ++ [Fit X y] in
      match fit (model w) X y with
      | inl e => (inl e, mkWorld (model w) t1)
      | inr m' =>
        match loc data_f [idx] with
        | inl e => (inl e, mkWorld m' t1)
        | inr row_df =>
          let t2 := t1 ++ [Predict row_df] in
          match rbind (predict m' row_df) getitem0 with
          | inl e => (inl e, mkWorld m' t2)
          | inr p0 =>
              (inr (fst acc ++ [idx], snd acc ++ [p0]),
               mkWorld m' (t2 ++ [Printed idx p0]))
          end
        end
      end
    end
  end.
Proof.
  unfold fold_body, model_fit, model_predict; cbv [bind lift emit ret rbind].
  destruct (loc data_f (index my_ratings)) as [e|X0]; [reflexivity|].
  destruct (drop X0 idx) as [e|X]; [reflexivity|].
  destruct (drop my_ratings idx) as [e|y]; [reflexivity|].
  cbn [model trace].
  destruct (fit (model w) X y) as [e|m']; [reflexivity|].
  destruct (loc data_f [idx]) as [e|row_df]; [reflexivity|].
  cbn [model trace].
  destruct (predict m' row_df) as [e|pred]; [reflexivity|].
  destruct (getitem0 pred) as [e|p0]; reflexivity.
Qed.

Lemma for_each_cons data_f my_ratings idx rest acc (w : World) :
  for_each fit predict data_f my_ratings (idx :: rest) acc w =
  match fold_body fit predict data_f my_ratings acc idx w with
  | (inl e, w') => (inl e, w')
  | (inr acc', w') => for_each fit predict data_f my_ratings rest acc' w'
  end.
Proof. reflexivity. Qed.

(** *** Missing keys *)

Lemma fold_body_missing data_f my_ratings acc idx (w : World) k :
  In k (index my_ratings) -> ~ In k (index data_f) ->
  fold_body fit predict data_f my_ratings acc idx w = (raise KeyError, w).
Proof.
  intros Hin Hnot. rewrite fold_body_eq.
  rewrite (loc_missing data_f (index my_ratings) k Hin Hnot). reflexivity.
Qed.

Lemma for_each_missing data_f my_ratings idxs acc (w : World) k :
  idxs <> [] ->
  In k (index my_ratings) -> ~ In k (index data_f) ->
  for_each fit predict data_f my_ratings idxs acc w = (raise KeyError, w).
Proof.
  intros Hne Hin Hnot. destruct idxs as [|idx rest]; [congruence|].
  rewrite for_each_cons, (fold_body_missing _ _ _ _ _ k) by assumption.
  reflexivity.
Qed.

(** C1.  When the target vector is not empty and one of its keys has no row
    in the feature matrix, [loocv_regression] raises pandas' [KeyError] (the
    spec's KeyMismatch) in the first fold: nothing is returned, the model
    is never fit, nothing is printed. *)
Theorem loocv_regression_missing_key_raises :
  forall data my_ratings fill (w : World) k,
    my_ratings <> [] ->
    In k (index my_ratings) -> ~ In k (index data) ->
    loocv_regression fit predict data my_ratings fill w = (raise KeyError, w).
Proof.
  intros data my_ratings fill w k Hne Hin Hnot.
  unfold loocv_regression, bind.
  rewrite (for_each_missing _ _ _ _ _ k); [reflexivity | | assumption |].
  - destruct my_ratings; [congruence | discriminate].
  - now rewrite index_fillna.
Qed.

(** *** Empty target *)

(** C5, amended.  On an empty target vector [loocv_regression] raises
    nothing: it returns the empty prediction frame, without a call to the
    model and without output, and every model object is left as it was. *)
Theorem loocv_regression_empty_target :
  forall dflt data model_arg fill_arg,
    let c := call_loocv_regression fit predict dflt data [] model_arg fill_arg in
    returned c = ok [] /\ events c = [] /\
    passed_after c = model_arg /\ default_after c = dflt.
Proof.
  intros dflt data model_arg fill_arg c. subst c.
  destruct model_arg as [m|]; repeat split.
Qed.

(** *** Feature rows outside the target *)

Lemma for_each_ext data_f data_f' my_ratings idxs :
  loc data_f (index my_ratings) = loc data_f' (index my_ratings) ->
  (forall k, In k idxs -> loc data_f [k] = loc data_f' [k]) ->
  forall acc (w : World),
    for_each fit predict data_f my_ratings idxs acc w
    = for_each fit predict data_f' my_ratings idxs acc w.
Proof.
  intros Hall. induction idxs as [|idx rest IH]; intros Hone acc w.
  - reflexivity.
  - rewrite !for_each_cons, !fold_body_eq.
    rewrite Hall, (Hone idx) by now left.
    assert (IH' := IH (fun k Hk => Hone k (or_intror Hk))).
    repeat match goal with
           | |- context [match ?r with inl _ => _ | inr _ => _ end] =>
               destruct r; cbn zeta; try reflexivity
           end; apply IH'.
Qed.

(** C10.  Deleting the feature rows whose key is not a target key changes
    nothing: the call returns the same result, makes the same calls to the
    model and leaves it in the same state. *)
Theorem loocv_regression_ignores_other_rows :
  forall data my_ratings fill (w : World),
    loocv_regression fit predict (restrict_to_target data my_ratings) my_ratings fill w
    = loocv_regression fit predict data my_ratings fill w.
Proof.
  intros data my_ratings fill w.
  unfold loocv_regression, bind, restrict_to_target.
  rewrite (fillna_filter_label (fun k => has_label k (index my_ratings))).
  rewrite (for_each_ext _ (fillna data fill)); [reflexivity | |].
  - apply (loc_filter_label (fun k => has_label k (index my_ratings))).
    intros k Hk. now apply has_label_In.
  - intros k Hk.
    apply (loc_filter_label (fun k => has_label k (index my_ratings))).
    intros k' [Hk' | []]. subst k'. now apply has_label_In.
Qed.

(** *** One fold when every target key has a feature row *)

Lemma filter_rows_at_same {A} (df : DataFrame A) (k : label) :
  filter (fun r => negb (String.eqb (fst r) k)) (rows_at df k) = [].
Proof.
  unfold rows_at, DataFrame, label in *.
  induction df as [|r df IH]; simpl; [reflexivity|].
  destruct (String.eqb (fst r) k) eqn:E; simpl; [|exact IH].
  rewrite E. simpl. exact IH.
Qed.

Lemma filter_rows_at_other {A} (df : DataFrame A) (k k' : label) :
  String.eqb k' k = false ->
  filter (fun r => negb (String.eqb (fst r) k)) (rows_at df k') = rows_at df k'.
Proof.
  intros Hne. unfold rows_at, DataFrame, label in *.
  induction df as [|r df IH]; simpl; [reflexivity|].
  destruct (String.eqb (fst r) k') eqn:E; simpl; [|exact IH].
  apply String.eqb_eq in E. rewrite E, Hne. simpl. now rewrite IH.
Qed.

Lemma filter_flat_map_rows_at {A} (df : DataFrame A) (labels : list label) (k : label) :
  filter (fun r => negb (String.eqb (fst r) k)) (flat_map (rows_at df) labels)
  = flat_map (rows_at df) (filter (fun k' => negb (String.eqb k' k)) labels).
Proof.
  induction labels as [|k' ks IH]; simpl; [reflexivity|].
  rewrite filter_app.
  destruct (String.eqb k' k) eqn:E; simpl.
  - apply String.eqb_eq in E. subst k'.
    rewrite filter_rows_at_same. exact IH.
  - rewrite filter_rows_at_other by assumption. f_equal. exact IH.
Qed.

Lemma train_X_present (data_f : DataFrame (list Q)) (my_ratings : DataFrame Q) idx :
  (forall k, In k (index my_ratings) -> In k (index data_f)) ->
  In idx (index my_ratings) ->
  rbind (loc data_f (index my_ratings)) (fun X0 => drop X0 idx)
  = ok (training_features data_f my_ratings idx).
Proof.
  intros Hall Hin. rewrite (loc_present _ _ Hall). simpl.
  rewrite drop_present by (apply In_index_flat_map_rows_at; auto).
  unfold training_features. now rewrite filter_flat_map_rows_at.
Qed.

Lemma fold_body_present data_f my_ratings acc idx (w : World) :
  (forall k, In k (index my_ratings) -> In k (index data_f)) ->
  In idx (index my_ratings) ->
  fold_body fit predict data_f my_ratings acc idx w =
  let X := training_features data_f my_ratings idx in
  let y := training_targets my_ratings idx in
  let t1 := trace w ++ [Fit X y] in
  match fit (model w) X y with
  | inl e => (inl e, mkWorld (model w) t1)
  | inr m' =>
      let row_df := rows_at data_f idx in
      let t2 := t1 ++ [Predict row_df] in
      match rbind (predict m' row_df) getitem0 with
      | inl e => (inl e, mkWorld m' t2)
      | inr p0 =>
          (inr (fst acc ++ [idx], snd acc ++ [p0]),
           mkWorld m' (t2 ++ [Printed idx p0]))
      end
  end.
Proof.
  intros Hall Hin. rewrite fold_body_eq.
  rewrite (train_X_present _ _ _ Hall Hin).
  rewrite (drop_present my_ratings idx Hin).
  rewrite (loc_present data_f [idx])
    by (intros k [Hk | []]; subst k; now apply Hall).
  simpl flat_map. rewrite app_nil_r. reflexivity.
Qed.

Lemma keys_present_dec (labels ks : list label) :
  (forall k, In k labels -> In k ks) \/ (exists k, In k labels /\ ~ In k ks).
Proof.
  induction labels as [|k labels IH].
  - left. intros k [].
  - destruct (in_dec string_dec k ks) as [Hin | Hnot].
    + destruct IH as [Hall | [k' [Hk' Hnot']]].
      * left. intros k' [Hk' | Hk']; [now subst k' | now apply Hall].
      * right. exists k'. split; [now right | assumption].
    + right. exists k. split; [now left | assumption].
Qed.

(** *** The accumulated lists *)

Lemma fold_body_ok_acc data_f my_ratings acc idx (w w' : World) acc' :
  fold_body fit predict data_f my_ratings acc idx w = (inr acc', w') ->
  exists p0, acc' = (fst acc ++ [idx], snd acc ++ [p0]).
Proof.
  rewrite fold_body_eq.
  repeat match goal with
         | |- context [match ?r with inl _ => _ | inr _ => _ end] =>
             destruct r; cbn zeta; try discriminate
         end.
  intros H. inversion H. eexists. reflexivity.
Qed.

Lemma for_each_ok_acc data_f my_ratings idxs :
  forall acc (w w' : World) acc',
    for_each fit predict data_f my_ratings idxs acc w = (inr acc', w') ->
    fst acc' = fst acc ++ idxs /\
    List.length (snd acc') = (List.length (snd acc) + List.length idxs)%nat.
Proof.
  induction idxs as [|idx rest IH]; intros acc w w' acc' H.
  - inversion H. rewrite app_nil_r. simpl. split; [reflexivity | lia].
  - rewrite for_each_cons in H.
    destruct (fold_body fit predict data_f my_ratings acc idx w) as [[e|acc1] w1] eqn:E;
      [discriminate|].
    apply fold_body_ok_acc in E. destruct E as [p0 ->].
    apply IH in H. destruct H as [H1 H2]. simpl in H1, H2.
    rewrite H1, H2, <- app_assoc, length_app. simpl. split; [reflexivity | lia].
Qed.

(** *** The calls to [fit] *)

Lemma fit_calls_app (a b : list event) :
  fit_calls (a ++ b) = fit_calls a ++ fit_calls b.
Proof. unfold fit_calls. apply flat_map_app. Qed.






(** *** The keys of the result *)

Lemma Permutation_insert_desc (x : label * Q) (l : DataFrame Q) :
  Permutation (insert_desc x l) (x :: l).
Proof.
  induction l as [|y l IH]; simpl; [reflexivity|].
  destruct (Qle_bool (snd y) (snd x)); [reflexivity|].
  rewrite IH. apply perm_swap.
Qed.

Lemma Permutation_sort_values_desc (l : DataFrame Q) :
  Permutation (sort_values_desc l) l.
Proof.
  induction l as [|x l IH]; simpl; [reflexivity|].
  rewrite Permutation_insert_desc. now apply perm_skip.
Qed.

Lemma index_combine (albums : list label) (predictions : list Q) :
  List.length albums = List.length predictions ->
  index (combine albums predictions) = albums.
Proof.
  revert predictions. induction albums as [|a albums IH];
    intros [|p predictions] Hlen; simpl in *; try discriminate; [reflexivity|].
  f_equal. apply IH. lia.
Qed.

Lemma loocv_regression_ok_index data my_ratings fill (w w' : World) res :
  loocv_regression fit predict data my_ratings fill w = (ok res, w') ->
  Permutation (index res) (index my_ratings).
Proof.
  unfold loocv_regression, bind. intros H.
  destruct (for_each fit predict (fillna data fill) my_ratings (index my_ratings) ([], []) w)
    as [[e|acc] w1] eqn:E; [discriminate|].
  unfold ret in H. inversion H; subst.
  apply for_each_ok_acc in E. simpl in E. destruct E as [Hk Hlen].
  assert (Hl : List.length (fst acc) = List.length (snd acc))
    by (rewrite Hk, Hlen; reflexivity).
  unfold index at 1. rewrite (Permutation_sort_values_desc _).
  fold (index (combine (fst acc) (snd acc))).
  rewrite (index_combine _ _ Hl), Hk. reflexivity.
Qed.

Lemma for_each_total data_f my_ratings idxs :
  (forall k, In k (index my_ratings) -> In k (index data_f)) ->
  (forall k, In k idxs -> In k (index my_ratings)) ->
  (forall m X y, exists m', fit m X y = ok m') ->
  (forall m X, X <> [] -> exists p ps, predict m X = ok (p :: ps)) ->
  forall acc (w : World),
  exists acc' w',
    for_each fit predict data_f my_ratings idxs acc w = (inr acc', w').
Proof.
  intros Hall. induction idxs as [|idx rest IH]; intros Hsub Hfit Hpred acc w.
  - exists acc, w. reflexivity.
  - rewrite for_each_cons.
    assert (Hin : In idx (index my_ratings)) by (apply Hsub; now left).
    rewrite (fold_body_present _ _ _ _ _ Hall Hin). cbn zeta.
    destruct (Hfit (model w) (training_features data_f my_ratings idx)
                   (training_targets my_ratings idx)) as [m' ->].
    unfold ok.
    destruct (Hpred m' (rows_at data_f idx)) as [p [ps ->]].
    { apply Hall in Hin. intros Hnil. now apply rows_at_nil in Hnil. }
    simpl. apply IH; auto. intros k Hk. apply Hsub. now right.
Qed.

(** C3.  For a non-empty feature matrix and a non-empty target vector with
    the same keys, the frame the call returns has exactly the target
    vector's keys, each once per target row; and the call does return when
    the model's [fit] accepts every training fold and its [predict] answers
    for every row it is given. *)
Theorem loocv_regression_one_prediction_per_key :
  forall data my_ratings fill (w : World),
    data <> [] -> my_ratings <> [] ->
    (forall k, In k (index my_ratings) <-> In k (index data)) ->
    (forall res w',
        loocv_regression fit predict data my_ratings fill w = (ok res, w') ->
        Permutation (index res) (index my_ratings)) /\
    ((forall m X y, exists m', fit m X y = ok m') ->
     (forall m X, X <> [] -> exists p ps, predict m X = ok (p :: ps)) ->
     exists res w',
       loocv_regression fit predict data my_ratings fill w = (ok res, w')).
Proof.
  intros data my_ratings fill w _ _ Hkeys. split.
  - intros res w'. apply loocv_regression_ok_index.
  - intros Hfit Hpred. unfold loocv_regression, bind.
    destruct (for_each_total (fillna data fill) my_ratings (index my_ratings))
      with (acc := (@nil label, @nil Q)) (w := w) as [acc' [w' ->]]; auto.
    + intros k Hk. rewrite index_fillna. now apply Hkeys.
    + unfold ret. eexists. eexists. reflexivity.
Qed.

(** *** Order of the result *)

Lemma Forall_insert_desc (P : label * Q -> Prop) (x : label * Q) (l : DataFrame Q) :
  P x -> Forall P l -> Forall P (insert_desc x l).
Proof.
  intros Hx Hl. induction Hl as [|y l Hy Hl IH]; simpl.
  - constructor; [assumption | constructor].
  - destruct (Qle_bool (snd y) (snd x)).
    + constructor; [assumption|]. now constructor.
    + constructor; assumption.
Qed.

Lemma insert_desc_sorted (x : label * Q) (l : DataFrame Q) :
  StronglySorted pred_ge l -> StronglySorted pred_ge (insert_desc x l).
Proof.
  intros Hs. induction Hs as [|y l Hs IH Hy]; simpl.
  - constructor; constructor.
  - destruct (Qle_bool (snd y) (snd x)) eqn:E.
    + apply Qle_bool_iff in E. constructor.
      * now constructor.
      * constructor; [exact E|].
        apply Forall_forall. intros z Hz.
        rewrite Forall_forall in Hy. specialize (Hy z Hz).
        unfold pred_ge in *. now apply Qle_trans with (snd y).
    + constructor; [assumption|].
      apply Forall_insert_desc; [|assumption].
      unfold pred_ge. apply Qlt_le_weak, Qnot_le_lt.
      intros Hle. apply Qle_bool_iff in Hle. congruence.
Qed.

Lemma sort_values_desc_sorted (l : DataFrame Q) :
  StronglySorted pred_ge (sort_values_desc l).
Proof.
  induction l as [|x l IH]; simpl; [constructor | now apply insert_desc_sorted].
Qed.

Lemma StronglySorted_nth_error {A} (R : A -> A -> Prop) (l : list A) :
  StronglySorted R l ->
  forall i j a b, (i < j)%nat ->
    nth_error l i = Some a -> nth_error l j = Some b -> R a b.
Proof.
  intros Hs. induction Hs as [|x l Hs IH Hx]; intros i j a b Hij Hi Hj.
  - destruct i; discriminate.
  - destruct j as [|j]; [lia|]. simpl in Hj.
    destruct i as [|i]; simpl in Hi.
    + inversion Hi; subst. rewrite Forall_forall in Hx.
      apply Hx. eapply nth_error_In; eassumption.
    + apply (IH i j); [lia | assumption | assumption].
Qed.

(** C8.  The frame the call returns is in descending order of prediction:
    of two of its entries, the later one never has the larger
    prediction. *)
Theorem loocv_regression_sorted_descending :
  forall data my_ratings fill (w w' : World) res i j a b,
    loocv_regression fit predict data my_ratings fill w = (ok res, w') ->
    (i < j)%nat ->
    nth_error res i = Some a -> nth_error res j = Some b ->
    snd b <= snd a.
Proof.
  intros data my_ratings fill w w' res i j a b H Hij Hi Hj.
  unfold loocv_regression, bind in H.
  destruct (for_each fit predict (fillna data fill) my_ratings (index my_ratings) ([], []) w)
    as [[e|acc] w1]; [discriminate|].
  unfold ret in H. inversion H; subst.
  exact (StronglySorted_nth_error pred_ge _ (sort_values_desc_sorted _)
           i j a b Hij Hi Hj).
Qed.

(** *** Where the feature rows come from *)

Lemma loc_incl {A} (df : DataFrame A) (labels : list label) (X : DataFrame A) :
  loc df labels = ok X -> incl X df.
Proof.
  intros H. apply loc_inv in H. destruct H as [-> _].
  intros r Hr. apply in_flat_map in Hr. destruct Hr as [k [_ Hr]].
  now apply In_rows_at in Hr.
Qed.

Lemma drop_incl {A} (df : DataFrame A) (k : label) (X : DataFrame A) :
  drop df k = ok X -> incl X df.
Proof.
  unfold drop. destruct (has_label k (index df)); [|discriminate].
  intros H. inversion H. intros r Hr. now apply filter_In in Hr.
Qed.

Lemma fold_body_drawn data_f my_ratings acc idx (w w' : World) r :
  fold_body fit predict data_f my_ratings acc idx w = (r, w') ->
  exists es, trace w' = trace w ++ es /\ Forall (drawn_from data_f) es.
Proof.
  rewrite fold_body_eq.
  destruct (loc data_f (index my_ratings)) as [e|X0] eqn:EX0; simpl rbind.
  { intros H; inversion H. exists []. now rewrite app_nil_r. }
  destruct (drop X0 idx) as [e|X] eqn:EX.
  { intros H; inversion H. exists []. now rewrite app_nil_r. }
  assert (HX : incl X data_f).
  { intros r0 Hr0. eapply loc_incl; [exact EX0|]. eapply drop_incl; eassumption. }
  destruct (drop my_ratings idx) as [e|y].
  { intros H; inversion H. exists []. now rewrite app_nil_r. }
  cbn zeta.
  destruct (fit (model w) X y) as [e|m'].
  { intros H; inversion H. exists [Fit X y]. split; [reflexivity|].
    repeat constructor. exact HX. }
  destruct (loc data_f [idx]) as [e|row_df] eqn:Erow.
  { intros H; inversion H. exists [Fit X y]. split; [reflexivity|].
    repeat constructor. exact HX. }
  apply loc_incl in Erow.
  destruct (rbind (predict m' row_df) getitem0) as [e|p0]; intros H; inversion H.
  - exists [Fit X y; Predict row_df]. cbn [trace]. rewrite <- app_assoc.
    split; [reflexivity|]. repeat constructor; assumption.
  - exists [Fit X y; Predict row_df; Printed idx p0]. cbn [trace].
    rewrite <- !app_assoc. split; [reflexivity|].
    repeat constructor; assumption.
Qed.

Lemma for_each_drawn data_f my_ratings idxs :
  forall acc (w w' : World) r,
    for_each fit predict data_f my_ratings idxs acc w = (r, w') ->
    exists es, trace w' = trace w ++ es /\ Forall (drawn_from data_f) es.
Proof.
  induction idxs as [|idx rest IH]; intros acc w w' r H.
  - inversion H. exists []. now rewrite app_nil_r.
  - rewrite for_each_cons in H.
    destruct (fold_body fit predict data_f my_ratings acc idx w) as [[e|acc1] w1] eqn:E;
      apply fold_body_drawn in E; destruct E as [es1 [Ht1 Hd1]].
    + inversion H; subst. now exists es1.
    + apply IH in H. destruct H as [es2 [Ht2 Hd2]].
      exists (es1 ++ es2). rewrite Ht2, Ht1, <- app_assoc.
      split; [reflexivity | now apply Forall_app].
Qed.

(** *** The state of the model object *)

Lemma for_each_reset data_f my_ratings idxs :
  (forall m m' X y, fit m X y = fit m' X y) ->
  forall acc (w1 w2 : World),
    trace w1 = trace w2 ->
    fst (for_each fit predict data_f my_ratings idxs acc w1)
    = fst (for_each fit predict data_f my_ratings idxs acc w2) /\
    trace (snd (for_each fit predict data_f my_ratings idxs acc w1))
    = trace (snd (for_each fit predict data_f my_ratings idxs acc w2)).
Proof.
  intros Hreset. induction idxs as [|idx rest IH]; intros acc w1 w2 Ht.
  - simpl. auto.
  - rewrite !for_each_cons, !fold_body_eq.
    destruct (rbind (loc data_f (index my_ratings)) (fun X0 => drop X0 idx))
      as [e|X]; [simpl; auto|].
    destruct (drop my_ratings idx) as [e|y]; [simpl; auto|].
    cbn zeta. rewrite (Hreset (model w1) (model w2)), Ht.
    destruct (fit (model w2) X y) as [e|m']; [simpl; auto|].
    destruct (loc data_f [idx]) as [e|row_df]; [simpl; auto|].
    destruct (rbind (predict m' row_df) getitem0) as [e|p0]; simpl; auto.
Qed.

End LoocvFacts.

(** ** Evaluation *)

(** *** Joining the two frames *)

Lemma is_unique_NoDup (ks : list label) : is_unique ks = true <-> NoDup ks.
Proof.
  induction ks as [|k ks IH]; simpl.
  - split; [constructor | reflexivity].
  - rewrite andb_true_iff, negb_true_iff, has_label_false, IH, NoDup_cons_iff.
    tauto.
Qed.

Lemma lookup_cons_eq {A} (k : label) (v : A) (df : DataFrame A) :
  lookup ((k, v) :: df) k = Some v.
Proof. unfold lookup, rows_at. simpl. now rewrite String.eqb_refl. Qed.

Lemma lookup_cons_neq {A} (k0 k : label) (v0 : A) (df : DataFrame A) :
  k0 <> k -> lookup ((k0, v0) :: df) k = lookup df k.
Proof.
  intros Hne. unfold lookup, rows_at. simpl.
  apply String.eqb_neq in Hne. now rewrite Hne.
Qed.

Lemma In_index {A} (df : DataFrame A) (k : label) (v : A) :
  In (k, v) df -> In k (index df).
Proof. intros H. unfold index. apply in_map_iff. now exists (k, v). Qed.

Lemma index_In {A} (df : DataFrame A) (k : label) :
  In k (index df) -> exists v, In (k, v) df.
Proof.
  unfold index. intros H. apply in_map_iff in H.
  destruct H as [[k' v] [Hk Hin]]. simpl in Hk. subst k'. now exists v.
Qed.

Lemma lookup_In {A} (df : DataFrame A) (k : label) (v : A) :
  NoDup (index df) -> In (k, v) df -> lookup df k = Some v.
Proof.
  induction df as [|[k0 v0] df IH]; simpl; intros Hnd Hin; [contradiction|].
  apply NoDup_cons_iff in Hnd. destruct Hnd as [Hnot Hnd].
  destruct Hin as [Heq | Hin].
  - inversion Heq; subst. apply lookup_cons_eq.
  - rewrite lookup_cons_neq; [now apply IH|].
    intros ->. apply Hnot. eapply In_index; eassumption.
Qed.

Lemma lookup_value_at (df : DataFrame float) (k : label) :
  In k (index df) -> lookup df k = Some (value_at df k).
Proof.
  intros Hin. unfold value_at, lookup.
  destruct (rows_at df k) as [|r rs] eqn:E; [|reflexivity].
  apply rows_at_nil in E. contradiction.
Qed.

Lemma concat_equal_index {A} (predictions my_ratings : DataFrame A) :
  NoDup (index predictions) ->
  index predictions = index my_ratings ->
  map (fun pr => (fst (fst pr), (Some (snd (fst pr)), Some (snd (snd pr)))))
      (combine predictions my_ratings)
  = map (fun k => (k, (lookup predictions k, lookup my_ratings k)))
        (index predictions).
Proof.
  revert my_ratings.
  induction predictions as [|[k p] ps IH]; intros [|[k' t] ts] Hnd Heq;
    simpl in *; try discriminate; [reflexivity|].
  inversion Heq as [[Hk Hrest]]. subst k'.
  apply NoDup_cons_iff in Hnd. destruct Hnd as [Hnot Hnd].
  rewrite !lookup_cons_eq. f_equal.
  rewrite (IH ts Hnd Hrest). apply map_ext_in. intros k' Hk'.
  rewrite !lookup_cons_neq; [reflexivity | |]; intros ->; contradiction.
Qed.

Lemma index_equals_eq (a b : list label) : index_equals a b = true -> a = b.
Proof.
  revert b. induction a as [|x a IH]; intros [|y b]; simpl;
    try discriminate; [reflexivity|].
  rewrite andb_true_iff, String.eqb_eq. intros [-> H]. f_equal. now apply IH.
Qed.

Lemma union_index_same (a b : list label) :
  (forall k, In k b -> In k a) -> union_index a b = a.
Proof.
  intros Hsub. unfold union_index.
  replace (filter (fun k => negb (has_label k a)) b) with (@nil label);
    [apply app_nil_r|].
  symmetry. induction b as [|k b IH]; simpl; [reflexivity|].
  assert (Hk : has_label k a = true) by (apply has_label_In, Hsub; now left).
  rewrite Hk. simpl. apply IH. intros k' Hk'. apply Hsub. now right.
Qed.

Lemma concat_axis1_matching (predictions my_ratings : DataFrame float) :
  NoDup (index predictions) ->
  Permutation (index predictions) (index my_ratings) ->
  concat_axis1 predictions my_ratings
  = ok (map (fun k => (k, (Some (value_at predictions k),
                           Some (value_at my_ratings k))))
            (index predictions)).
Proof.
  intros Hnd Hperm.
  assert (Hnd' : NoDup (index my_ratings)) by (eapply Permutation_NoDup; eassumption).
  assert (Hlook : map (fun k => (k, (lookup predictions k, lookup my_ratings k)))
                      (index predictions)
                  = map (fun k => (k, (Some (value_at predictions k),
                                       Some (value_at my_ratings k))))
                        (index predictions)).
  { apply map_ext_in. intros k Hk.
    rewrite (lookup_value_at predictions k Hk).
    rewrite (lookup_value_at my_ratings k); [reflexivity|].
    eapply Permutation_in; eassumption. }
  unfold concat_axis1.
  destruct (index_equals (index predictions) (index my_ratings)) eqn:E.
  - apply index_equals_eq in E.
    now rewrite (concat_equal_index _ _ Hnd E), Hlook.
  - apply is_unique_NoDup in Hnd, Hnd'. rewrite Hnd, Hnd'. simpl.
    rewrite union_index_same, Hlook; [reflexivity|].
    intros k Hk. eapply Permutation_in; [symmetry|]; eassumption.
Qed.

(** *** The two columns *)

Lemma In_value_at (df : DataFrame float) (k : label) :
  In k (index df) -> In (k, value_at df k) df.
Proof.
  intros Hin. unfold value_at, lookup.
  destruct (rows_at df k) as [|r rs] eqn:E.
  - apply rows_at_nil in E. contradiction.
  - assert (Hr : In r (rows_at df k)) by (rewrite E; now left).
    apply In_rows_at in Hr. destruct Hr as [Hr Hk].
    destruct r as [k' v]. simpl in *. now subst k'.
Qed.

Lemma all_finite_Some (l : list float) :
  Forall (fun v => PrimFloat.is_finite v = true) l ->
  all_finite (map Some l) = ok l.
Proof.
  induction 1 as [|v l Hv Hl IH]; simpl; [reflexivity|].
  now rewrite Hv, IH.
Qed.

Lemma check_array_Some (l : list float) :
  l <> [] -> Forall (fun v => PrimFloat.is_finite v = true) l ->
  check_array (map Some l) = ok l.
Proof.
  intros Hne Hfin. destruct l as [|v l]; [congruence|].
  unfold check_array. cbn [map]. apply (all_finite_Some (v :: l) Hfin).
Qed.

Lemma values_finite (df : DataFrame float) (ks : list label) :
  all_values_finite df -> (forall k, In k ks -> In k (index df)) ->
  Forall (fun v => PrimFloat.is_finite v = true) (map (value_at df) ks).
Proof.
  intros Hfin Hsub. apply Forall_forall. intros v Hv.
  apply in_map_iff in Hv. destruct Hv as [k [<- Hk]].
  apply (Hfin k). apply In_value_at. now apply Hsub.
Qed.

Lemma evaluate_matching np_sum (predictions my_ratings : DataFrame float) :
  predictions <> [] ->
  NoDup (index predictions) ->
  Permutation (index predictions) (index my_ratings) ->
  all_values_finite predictions -> all_values_finite my_ratings ->
  let yt := map (value_at my_ratings) (index predictions) in
  let yp := map (value_at predictions) (index predictions) in
  evaluate np_sum predictions my_ratings
  = ok (r2_value np_sum yt yp,
        PrimFloat.sqrt (np_average np_sum (squared_residuals yt yp))).
Proof.
  intros Hne Hnd Hperm Hfp Hft yt yp. unfold evaluate.
  rewrite (concat_axis1_matching _ _ Hnd Hperm). cbn [rbind ok].
  assert (Hs : col_SCORE
                 (map (fun k => (k, (Some (value_at predictions k),
                                     Some (value_at my_ratings k))))
                      (index predictions)) = map Some yt).
  { unfold col_SCORE, yt. rewrite !map_map. reflexivity. }
  assert (Hp : col_prediction
                 (map (fun k => (k, (Some (value_at predictions k),
                                     Some (value_at my_ratings k))))
                      (index predictions)) = map Some yp).
  { unfold col_prediction, yp. rewrite !map_map. reflexivity. }
  rewrite Hs, Hp. unfold r2_score, mean_squared_error.
  assert (Hidx : index predictions <> []).
  { destruct predictions; [congruence | discriminate]. }
  assert (Hyt : check_array (map Some yt) = ok yt).
  { apply check_array_Some.
    - unfold yt. intros Hnil. apply map_eq_nil in Hnil. contradiction.
    - apply values_finite; [exact Hft|].
      intros k Hk. eapply Permutation_in; eassumption. }
  assert (Hyp : check_array (map Some yp) = ok yp).
  { apply check_array_Some.
    - unfold yp. intros Hnil. apply map_eq_nil in Hnil. contradiction.
    - apply values_finite; [exact Hfp | auto]. }
  rewrite Hyt, Hyp. reflexivity.
Qed.

(** *** Averages of rationals *)

Lemma length_pos_inject {A} (l : list A) :
  l <> [] -> 0 < inject_Z (Z.of_nat (List.length l)).
Proof.
  intros Hne. destruct l as [|a l]; [congruence|].
  change 0 with (inject_Z 0). rewrite <- Zlt_Qlt. simpl List.length. lia.
Qed.

(** *** Binary64: signs *)

Lemma leb_zero_unsigned (x : float) :
  (0 <=? x)%float = true <-> unsigned (Prim2SF x).
Proof.
  rewrite FloatAxioms.leb_spec. change (Prim2SF 0) with (S754_zero false).
  destruct (Prim2SF x) as [s|[|]| |[|] m e]; cbn; intuition congruence.
Qed.

Lemma signed_false_unsigned x : signed false x -> unsigned x.
Proof. destruct x; simpl; auto. Qed.


(** Rounding keeps the sign: a mantissa that is not negative is never
    rounded to NaN. *)
Lemma shr_1_nonneg mrs : (0 <= shr_m mrs)%Z -> (0 <= shr_m (shr_1 mrs))%Z.
Proof.
  destruct mrs as [m r s]. destruct m as [|[p|p|]|p]; cbn; lia.
Qed.

Lemma iter_pos_shr_1_nonneg p : forall mrs,
  (0 <= shr_m mrs)%Z -> (0 <= shr_m (SpecFloat.iter_pos shr_1 p mrs))%Z.
Proof.
  induction p as [p IH|p IH|]; intros mrs H; cbn.
  - apply IH, IH, shr_1_nonneg, H.
  - apply IH, IH, H.
  - apply shr_1_nonneg, H.
Qed.

Lemma shr_fexp_nonneg m e l :
  (0 <= m)%Z -> (0 <= shr_m (fst (shr_fexp prec emax m e l)))%Z.
Proof.
  intros H. unfold shr_fexp, shr.
  assert (H0 : (0 <= shr_m (shr_record_of_loc m l))%Z).
  { destruct l as [|[| |]]; exact H. }
  destruct (fexp prec emax (Zdigits2 m + e) - e)%Z; cbn [fst]; try exact H0.
  now apply iter_pos_shr_1_nonneg.
Qed.

Lemma round_nearest_even_nonneg m l :
  (0 <= m)%Z -> (0 <= round_nearest_even m l)%Z.
Proof.
  intros H. destruct l as [|[| |]]; cbn; try lia. destruct (Z.even m); lia.
Qed.

Lemma binary_round_aux_signed s m e l :
  (0 <= m)%Z -> signed s (binary_round_aux prec emax s m e l).
Proof.
  intros H. unfold binary_round_aux.
  assert (H1 := shr_fexp_nonneg m e l H).
  destruct (shr_fexp prec emax m e l) as [mrs' e'].
  cbn [fst] in H1.
  assert (H2 := shr_fexp_nonneg _ e' loc_Exact
                  (round_nearest_even_nonneg (shr_m mrs')
                     (loc_of_shr_record mrs') H1)).
  destruct (shr_fexp prec emax
              (round_nearest_even (shr_m mrs') (loc_of_shr_record mrs'))
              e' loc_Exact) as [mrs'' e''].
  cbn [fst] in H2.
  destruct (shr_m mrs'') as [|p|p]; [reflexivity | | lia].
  destruct (e'' <=? emax - prec)%Z; reflexivity.
Qed.

Lemma binary_round_signed s m e : signed s (binary_round prec emax s m e).
Proof.
  unfold binary_round.
  destruct (shl_align m e (fexp prec emax (Z.pos (digits2_pos m) + e)))
    as [mz ez].
  apply binary_round_aux_signed. lia.
Qed.

(** *** Binary64: finite numbers and their residuals *)

Lemma is_finite_Prim2SF (x : float) :
  PrimFloat.is_finite x = true ->
  match Prim2SF x with
  | S754_zero _ | S754_finite _ _ _ => True
  | _ => False
  end.
Proof.
  unfold PrimFloat.is_finite, Prim2SF. intros H.
  apply negb_true_iff, orb_false_iff in H. destruct H as [-> ->].
  destruct (is_zero x); [exact I|].
  destruct (Z.frexp x) as [r exp].
  destruct (shr_fexp prec emax (Uint63Axioms.to_Z (normfr_mantissa r))
              (exp - prec) loc_Exact) as [shr e'].
  destruct (shr_m shr); exact I.
Qed.




Lemma SFsub_finite_signed (a b : spec_float) :
  match a with S754_zero _ | S754_finite _ _ _ => True | _ => False end ->
  match b with S754_zero _ | S754_finite _ _ _ => True | _ => False end ->
  exists s, signed s (SF64sub a b).
Proof.
  destruct a as [sa| | |sa ma ea]; try contradiction;
    destruct b as [sb| | |sb mb eb]; try contradiction; intros _ _.
  - destruct sa, sb; eexists; reflexivity.
  - eexists; reflexivity.
  - eexists; reflexivity.
  - unfold SF64sub, SFsub, binary_normalize.
    destruct (cond_Zopp sa (Z.pos (fst (shl_align ma ea (Z.min ea eb)))) -
              cond_Zopp sb (Z.pos (fst (shl_align mb eb (Z.min ea eb)))))%Z.
    + exists false. reflexivity.
    + exists false. apply binary_round_signed.
    + exists true. apply binary_round_signed.
Qed.

Lemma SFmul_self_unsigned (r : spec_float) s :
  signed s r -> unsigned (SF64mul r r).
Proof.
  destruct r as [sr|sr| |sr m e]; try contradiction; intros _;
    unfold SF64mul, SFmul; rewrite xorb_nilpotent.
  - exact I.
  - reflexivity.
  - apply signed_false_unsigned, binary_round_aux_signed. lia.
Qed.

(** The squared residual of two finite numbers is not below 0 (it may be
    infinite). *)
Lemma square_residual_nonneg (t p : float) :
  PrimFloat.is_finite t = true -> PrimFloat.is_finite p = true ->
  (0 <=? square (t - p))%float = true.
Proof.
  intros Ht Hp. apply is_finite_Prim2SF in Ht, Hp.
  apply leb_zero_unsigned. unfold square. rewrite mul_spec, sub_spec.
  destruct (SFsub_finite_signed _ _ Ht Hp) as [s Hs].
  eapply SFmul_self_unsigned; eassumption.
Qed.

(** *** Binary64: sums, the count, the mean and the root *)

Lemma add_nonneg (x y : float) :
  (0 <=? x)%float = true -> (0 <=? y)%float = true ->
  (0 <=? x + y)%float = true.
Proof.
  rewrite !leb_zero_unsigned, add_spec.
  destruct (Prim2SF x) as [sx|sx| |sx mx ex]; simpl; try contradiction;
    destruct (Prim2SF y) as [sy|sy| |sy my ey]; simpl; try contradiction;
    intros Hx Hy; subst; try exact I; try reflexivity.
  - destruct sx, sy; exact I.
  - apply signed_false_unsigned. apply binary_round_signed.
Qed.


Lemma fold_left_add_nonneg (l : list float) : forall acc,
  (0 <=? acc)%float = true ->
  Forall (fun x => (0 <=? x)%float = true) l ->
  (0 <=? fold_left PrimFloat.add l acc)%float = true.
Proof.
  induction l as [|x l IH]; intros acc Hacc Hl; simpl; [exact Hacc|].
  inversion Hl; subst. apply IH; [now apply add_nonneg | assumption].
Qed.


Lemma sequential_sum_nonneg : sums_nonneg sequential_sum.
Proof. intros l Hl. now apply fold_left_add_nonneg. Qed.

Lemma digits2_pos_lower (p : positive) :
  (2 ^ (Z.pos (digits2_pos p) - 1) <= Z.pos p)%Z.
Proof.
  induction p as [p IH|p IH|]; cbn [digits2_pos].
  - rewrite Pos2Z.inj_succ.
    replace (Z.succ (Z.pos (digits2_pos p)) - 1)%Z
      with (Z.succ (Z.pos (digits2_pos p) - 1))%Z by lia.
    rewrite Z.pow_succ_r by lia. lia.
  - rewrite Pos2Z.inj_succ.
    replace (Z.succ (Z.pos (digits2_pos p)) - 1)%Z
      with (Z.succ (Z.pos (digits2_pos p) - 1))%Z by lia.
    rewrite Z.pow_succ_r by lia. lia.
  - simpl. lia.
Qed.

Lemma digits2_pos_small (p : positive) :
  (Z.pos p < 2 ^ 53)%Z -> (Z.pos (digits2_pos p) <= 53)%Z.
Proof.
  intros H. assert (H1 := digits2_pos_lower p).
  destruct (Z_le_gt_dec (Z.pos (digits2_pos p)) 53) as [Hle|Hgt]; [exact Hle|].
  assert (H2 : (2 ^ 53 <= 2 ^ (Z.pos (digits2_pos p) - 1))%Z)
    by (apply Z.pow_le_mono_r; lia).
  lia.
Qed.

Lemma digits2_pos_iter_xO (p k : positive) :
  Z.pos (digits2_pos (Pos.iter xO p k))
  = (Z.pos (digits2_pos p) + Z.pos k)%Z.
Proof.
  induction k as [|k IH] using Pos.peano_ind.
  - simpl. lia.
  - rewrite Pos.iter_succ. cbn [digits2_pos]. lia.
Qed.

Lemma binary_round_aux_canonical s m e :
  fexp prec emax (Z.pos (digits2_pos m) + e) = e ->
  (e <= emax - prec)%Z ->
  binary_round_aux prec emax s (Z.pos m) e loc_Exact = S754_finite s m e.
Proof.
  intros Hc He. unfold binary_round_aux, shr_fexp.
  cbn [Zdigits2 shr_record_of_loc].
  rewrite Hc, Z.sub_diag.
  cbn [shr shr_m loc_of_shr_record round_nearest_even Zdigits2
         shr_record_of_loc].
  rewrite Hc, Z.sub_diag. cbn [shr shr_m].
  apply Z.leb_le in He. now rewrite He.
Qed.

Lemma binary_round_small (p : positive) :
  (Z.pos p < 2 ^ 53)%Z ->
  exists m e, binary_round prec emax false p 0 = S754_finite false m e.
Proof.
  intros Hp. assert (Hd := digits2_pos_small p Hp).
  assert (Hf : fexp prec emax (Z.pos (digits2_pos p) + 0)
               = (Z.pos (digits2_pos p) - 53)%Z).
  { unfold fexp, SpecFloat.emin, prec, emax. lia. }
  unfold binary_round. rewrite Hf. unfold shl_align.
  destruct (Z.pos (digits2_pos p) - 53 - 0)%Z as [|k|k] eqn:E; [| lia |].
  - exists p, 0%Z. apply binary_round_aux_canonical.
    + rewrite Hf. lia.
    + unfold prec, emax. lia.
  - exists (Pos.iter xO p k), (Z.pos (digits2_pos p) - 53)%Z.
    apply binary_round_aux_canonical.
    + rewrite digits2_pos_iter_xO.
      replace (Z.pos (digits2_pos p) + Z.pos k
               + (Z.pos (digits2_pos p) - 53))%Z
        with (Z.pos (digits2_pos p) + 0)%Z by lia.
      exact Hf.
    + unfold prec, emax. lia.
Qed.

(** A count of at least one and below 2^53 is a positive finite float. *)
Lemma count_positive (n : nat) :
  (0 < n)%nat -> (Z.of_nat n < 2 ^ 53)%Z ->
  exists m e, Prim2SF (count n) = S754_finite false m e.
Proof.
  intros Hn Hb. unfold count. rewrite of_uint63_spec, Uint63.of_Z_spec.
  rewrite Z.mod_small.
  - destruct (Z.of_nat n) as [|p|p] eqn:E; try lia.
    unfold binary_normalize. now apply binary_round_small.
  - split; [lia|]. eapply Z.lt_trans; [exact Hb|]. reflexivity.
Qed.


Lemma div_eucl_nonneg (a : Z) (b : positive) :
  (0 <= a)%Z -> (0 <= fst (Z.div_eucl a (Z.pos b)))%Z.
Proof.
  intros Ha. assert (H : fst (Z.div_eucl a (Z.pos b)) = (a / Z.pos b)%Z).
  { unfold Z.div. now destruct (Z.div_eucl a (Z.pos b)). }
  rewrite H. apply Z.div_pos; lia.
Qed.

Lemma div_count_nonneg (x : float) (n : nat) :
  (0 < n)%nat -> (Z.of_nat n < 2 ^ 53)%Z ->
  (0 <=? x)%float = true -> (0 <=? x / count n)%float = true.
Proof.
  intros Hn Hb. destruct (count_positive n Hn Hb) as [m [e H]].
  rewrite !leb_zero_unsigned, div_spec, H.
  destruct (Prim2SF x) as [sx|sx| |sx mx ex]; simpl; try contradiction;
    intros Hx; subst; try exact I; try reflexivity.
  unfold SFdiv_core_binary.
  match goal with
  | |- context [Z.div_eucl ?a (Z.pos m)] =>
      assert (Hq : (0 <= fst (Z.div_eucl a (Z.pos m)))%Z);
      [ apply div_eucl_nonneg;
        match goal with
        | |- (0 <= match ?d with _ => _ end)%Z =>
            destruct d; try lia; apply Z.shiftl_nonneg; lia
        end
      | destruct (Z.div_eucl a (Z.pos m)) as [q r] ]
  end.
  cbn [fst] in Hq.
  apply signed_false_unsigned, binary_round_aux_signed. exact Hq.
Qed.

Lemma sqrt_nonneg (x : float) :
  (0 <=? x)%float = true -> (0 <=? PrimFloat.sqrt x)%float = true.
Proof.
  rewrite !leb_zero_unsigned, sqrt_spec.
  destruct (Prim2SF x) as [sx|sx| |sx mx ex]; simpl; try contradiction;
    intros Hx; subst; try exact I; try reflexivity.
  unfold SFsqrt_core_binary.
  match goal with
  | |- context [Z.sqrtrem ?a] =>
      assert (Hq : (0 <= fst (Z.sqrtrem a))%Z)
        by (rewrite Z.sqrtrem_sqrt; apply Z.sqrt_nonneg);
      destruct (Z.sqrtrem a) as [q r]
  end.
  cbn [fst] in Hq.
  apply signed_false_unsigned, binary_round_aux_signed. exact Hq.
Qed.

(** *** Residuals *)

Lemma squared_residuals_map {A} (f g : A -> float) (l : list A) :
  squared_residuals (map f l) (map g l)
  = map (fun a => square (f a - g a)%float) l.
Proof.
  unfold squared_residuals.
  induction l as [|a l IH]; simpl; [reflexivity | now rewrite IH].
Qed.

Lemma residuals_nonneg (predictions my_ratings : DataFrame float) :
  Permutation (index predictions) (index my_ratings) ->
  all_values_finite predictions -> all_values_finite my_ratings ->
  Forall (fun x => (0 <=? x)%float = true)
         (squared_residuals (map (value_at my_ratings) (index predictions))
                            (map (value_at predictions) (index predictions))).
Proof.
  intros Hperm Hfp Hft. rewrite squared_residuals_map.
  apply Forall_forall. intros x Hx. apply in_map_iff in Hx.
  destruct Hx as [k [<- Hk]]. apply square_residual_nonneg.
  - apply (Hft k), In_value_at. eapply Permutation_in; eassumption.
  - apply (Hfp k), In_value_at. exact Hk.
Qed.


(** *** The two metrics *)


Lemma length_targets (predictions my_ratings : DataFrame float) :
  Permutation (index predictions) (index my_ratings) ->
  List.length (map (value_at predictions) (index predictions))
  = List.length my_ratings.
Proof.
  intros Hperm. apply Permutation_length in Hperm.
  unfold index in *. rewrite !length_map in *. exact Hperm.
Qed.

Lemma r2_value_short np_sum (yt yp : list float) :
  (List.length yp < 2)%nat -> r2_value np_sum yt yp = PrimFloat.nan.
Proof.
  intros Hlen. unfold r2_value. apply Nat.ltb_lt in Hlen. now rewrite Hlen.
Qed.



(** C4, amended.  On predictions and ground truth with the same keys, not
    empty, of finite numbers, where every ground-truth value is the same,
    [evaluate] raises nothing: it returns an R2 and the RMSE, and with a
    single entry the R2 is NaN. *)
Theorem evaluate_zero_variance :
  forall np_sum predictions my_ratings,
    predictions <> [] ->
    NoDup (index predictions) ->
    Permutation (index predictions) (index my_ratings) ->
    all_values_finite predictions -> all_values_finite my_ratings ->
    zero_variance my_ratings ->
    exists r2 rmse,
      evaluate np_sum predictions my_ratings = ok (r2, rmse) /\
      ((List.length my_ratings < 2)%nat -> r2 = PrimFloat.nan).
Proof.
  intros np_sum predictions my_ratings Hne Hnd Hperm Hfp Hft _.
  eexists. eexists.
  split; [apply (evaluate_matching np_sum _ _ Hne Hnd Hperm Hfp Hft)|].
  intros Hshort. apply r2_value_short.
  now rewrite (length_targets _ _ Hperm).
Qed.

(** ** The statements on the example frames *)

(** The spec's key-mismatch example: target A, B and features A only. *)
Lemma loocv_regression_missing_key_raises_witness :
  loocv_regression MeanModel.fit MeanModel.predict features_A target_AB 2 world0
  = (raise KeyError, world0).
Proof.
  apply (loocv_regression_missing_key_raises MeanModel.t MeanModel.fit
           MeanModel.predict features_A target_AB 2 world0 "B").
  - discriminate.
  - simpl. auto.
  - simpl. intros [H | []]. discriminate.
Defined.


(** The example returns, with the keys A, B, C. *)
Lemma loocv_regression_one_prediction_per_key_witness :
  exists res w',
    loocv_regression MeanModel.fit MeanModel.predict
      features_ABC target_ABC 2 world0 = (ok res, w') /\
    Permutation (index res) (index target_ABC).
Proof.
  destruct (loocv_regression_one_prediction_per_key MeanModel.t MeanModel.fit
              MeanModel.predict features_ABC target_ABC 2 world0)
    as [Hkeys Hruns].
  - discriminate.
  - discriminate.
  - intros k. reflexivity.
  - destruct Hruns as [res [w' Hrun]].
    + intros m X y. eexists. reflexivity.
    + intros m [|r X] Hne; [congruence|]. eexists. eexists. reflexivity.
    + exists res, w'. split; [exact Hrun | exact (Hkeys res w' Hrun)].
Defined.

(** First and last entry of the frame returned on the example. *)
Lemma loocv_regression_sorted_descending_witness :
  snd ("C", 3 # 2) <= snd ("A", 5 # 2).
Proof.
  eapply (loocv_regression_sorted_descending MeanModel.t MeanModel.fit
            MeanModel.predict features_ABC target_ABC 2 world0 _
            [("A", 5 # 2); ("B", 2); ("C", 3 # 2)] 0%nat 2%nat).
  - reflexivity.
  - lia.
  - reflexivity.
  - reflexivity.
Defined.

(** C5, on the code: with an empty target vector the call returns the empty
    frame and raises nothing. *)
Lemma loocv_regression_empty_target_returns :
  returned (call_loocv_regression MeanModel.fit MeanModel.predict unfitted
              features_ABC [] None None) = ok []
  /\ ~ (exists e, returned (call_loocv_regression MeanModel.fit
                              MeanModel.predict unfitted features_ABC []
                              None None) = raise e).
Proof.
  split; [reflexivity|]. intros [e H]. discriminate H.
Qed.

Lemma NoDup_CBA : NoDup ["C"; "B"; "A"].
Proof. repeat constructor; simpl; intuition discriminate. Qed.

Lemma Permutation_CBA : Permutation ["C"; "B"; "A"] ["A"; "B"; "C"].
Proof. symmetry. exact (Permutation_rev ["A"; "B"; "C"]). Qed.

Lemma zero_variance_333 : zero_variance truth_333.
Proof.
  exists 3%float. intros k t [H | [H | [H | []]]]; inversion H; reflexivity.
Qed.


Lemma all_values_finite_by_check (df : DataFrame float) :
  forallb (fun r => PrimFloat.is_finite (snd r)) df = true ->
  all_values_finite df.
Proof.
  intros H k v Hin. rewrite forallb_forall in H. exact (H (k, v) Hin).
Qed.

(** C4, on the code: on the spec's zero-variance ground truth [evaluate]
    raises nothing and returns 0 for R2, beside the RMSE (the square root of
    2). *)
Lemma evaluate_zero_variance_returns :
  zero_variance truth_333 /\
  evaluate sequential_sum predictions_421 truth_333
  = ok (0%float, PrimFloat.sqrt 2).
Proof.
  split; [exact zero_variance_333 | vm_compute; reflexivity].
Qed.

(** The zero-variance example, through the general statement. *)
Lemma evaluate_zero_variance_witness :
  exists r2 rmse,
    evaluate sequential_sum predictions_421 truth_333 = ok (r2, rmse) /\
    ((List.length truth_333 < 2)%nat -> r2 = PrimFloat.nan).
Proof.
  apply (evaluate_zero_variance sequential_sum predictions_421 truth_333).
  - discriminate.
  - exact NoDup_CBA.
  - exact Permutation_CBA.
  - apply all_values_finite_by_check. reflexivity.
  - apply all_values_finite_by_check. reflexivity.
  - exact zero_variance_333.
Defined.



(** * The loop as a whole *)

Section LoocvRuns.

Variable Model : Type.
Variable fit :
  Model -> DataFrame (list Q) -> DataFrame Q -> result Model.
Variable predict : Model -> DataFrame (list Q) -> result (list Q).

Local Abbreviation World := (World Model).

(** ** What a call that returns has done *)

Lemma for_each_ok_trace data_f my_ratings idxs :
  (forall k, In k (index my_ratings) -> In k (index data_f)) ->
  (forall k, In k idxs -> In k (index my_ratings)) ->
  forall acc (w w' : World) acc',
    for_each fit predict data_f my_ratings idxs acc w = (inr acc', w') ->
    exists ps,
      List.length ps = List.length idxs /\
      acc' = (fst acc ++ idxs, snd acc ++ ps) /\
      trace w' =
      trace w ++ flat_map (fold_events data_f my_ratings) (combine idxs ps).
Proof.
  intros Hall. induction idxs as [|idx rest IH]; intros Hsub acc w w' acc' H.
  - inversion H; subst. exists []. simpl. rewrite !app_nil_r.
    destruct acc'; auto.
  - rewrite for_each_cons in H.
    assert (Hin : In idx (index my_ratings)) by (apply Hsub; now left).
    rewrite (fold_body_present _ _ _ _ _ _ _ _ Hall Hin) in H. cbn zeta in H.
    destruct (fit (model w) (training_features data_f my_ratings idx)
                  (training_targets my_ratings idx)) as [e|m']; [discriminate|].
    destruct (rbind (predict m' (rows_at data_f idx)) getitem0) as [e|p0];
      [discriminate|].
    apply IH in H; [|intros k Hk; apply Hsub; now right].
    destruct H as [ps [Hlen [Hacc Htr]]]. cbn [fst snd trace] in *.
    exists (p0 :: ps). split; [simpl; now rewrite Hlen|]. split.
    + rewrite Hacc, <- !app_assoc. reflexivity.
    + rewrite Htr, <- !app_assoc. reflexivity.
Qed.

Lemma loocv_regression_ok_present data my_ratings fill (w w' : World) res :
  loocv_regression fit predict data my_ratings fill w = (ok res, w') ->
  forall k, In k (index my_ratings) -> In k (index (fillna data fill)).
Proof.
  intros H.
  destruct (keys_present_dec (index my_ratings) (index (fillna data fill)))
    as [Hall | [k [Hin Hnot]]]; [exact Hall|].
  unfold loocv_regression, bind in H.
  rewrite (for_each_missing Model fit predict _ _ _ _ _ k) in H;
    [discriminate | | assumption | assumption].
  intros Hnil. rewrite Hnil in Hin. exact Hin.
Qed.

Lemma loocv_regression_ok_run data my_ratings fill (w w' : World) res :
  loocv_regression fit predict data my_ratings fill w = (ok res, w') ->
  exists ps,
    List.length ps = List.length my_ratings /\
    trace w' =
    trace w ++ flat_map (fold_events (fillna data fill) my_ratings)
                        (combine (index my_ratings) ps) /\
    res = sort_values_desc (combine (index my_ratings) ps).
Proof.
  intros H.
  assert (Hall := loocv_regression_ok_present _ _ _ _ _ _ H).
  unfold loocv_regression, bind in H.
  destruct (for_each fit predict (fillna data fill) my_ratings
              (index my_ratings) ([], []) w) as [[e|acc] w1] eqn:E;
    [discriminate|].
  unfold ret in H. inversion H; subst.
  apply for_each_ok_trace in E; [|exact Hall | auto].
  destruct E as [ps [Hlen [Hacc Htr]]]. simpl in Hacc. subst acc.
  exists ps. unfold index in Hlen. rewrite length_map in Hlen. auto.
Qed.

(** X1.  A call that returns has run one fold per target row, in the order
    of the target vector; each fold fits on its training inputs, then
    predicts the feature rows of the held-out key, then prints the key with
    the first predicted value; and the frame returned holds exactly the
    printed pairs, rearranged in descending order of prediction (in which
    order equal predictions come is left open). *)
Theorem loocv_regression_trace :
  forall data my_ratings fill (w w' : World) res,
    loocv_regression fit predict data my_ratings fill w = (ok res, w') ->
    exists ps,
      List.length ps = List.length my_ratings /\
      trace w' =
      trace w ++ flat_map (fold_events (fillna data fill) my_ratings)
                          (combine (index my_ratings) ps) /\
      Permutation res (combine (index my_ratings) ps) /\
      StronglySorted pred_ge res.
Proof.
  intros data my_ratings fill w w' res H.
  destruct (loocv_regression_ok_run _ _ _ _ _ _ H) as [ps [Hlen [Htr Hres]]].
  exists ps. subst res. repeat split; try assumption.
  - apply Permutation_sort_values_desc.
  - apply sort_values_desc_sorted.
Qed.

(** ** Folds on their own *)

Lemma for_each_independent data_f my_ratings idxs (m0 : Model) :
  (forall m m' X y, fit m X y = fit m' X y) ->
  (forall k, In k (index my_ratings) -> In k (index data_f)) ->
  (forall k, In k idxs -> In k (index my_ratings)) ->
  forall acc (w : World),
    fst (for_each fit predict data_f my_ratings idxs acc w)
    = rbind (all_folds (fold_prediction fit predict m0 data_f my_ratings) idxs)
            (fun ps => ok (fst acc ++ idxs, snd acc ++ ps)).
Proof.
  intros Hreset Hall. induction idxs as [|idx rest IH]; intros Hsub acc w.
  - simpl. rewrite !app_nil_r. now destruct acc.
  - rewrite for_each_cons.
    assert (Hin : In idx (index my_ratings)) by (apply Hsub; now left).
    rewrite (fold_body_present _ _ _ _ _ _ _ _ Hall Hin). cbn zeta.
    cbn [all_folds]. unfold fold_prediction at 1.
    rewrite (Hreset (model w) m0).
    destruct (fit m0 (training_features data_f my_ratings idx)
                  (training_targets my_ratings idx)) as [e|m']; [reflexivity|].
    cbn [rbind].
    destruct (rbind (predict m' (rows_at data_f idx)) getitem0) as [e|p0];
      [reflexivity|].
    cbn [rbind]. rewrite IH by (intros k Hk; apply Hsub; now right).
    destruct (all_folds (fold_prediction fit predict m0 data_f my_ratings) rest)
      as [e|ps]; [reflexivity|].
    cbn [rbind fst snd]. rewrite <- !app_assoc. reflexivity.
Qed.

(** X2.  When [fit] does not read what the object held before and every
    target key has a feature row, the loop on one shared object gives what
    the folds give one by one, each on an object of its own: the call
    raises what the first failing fold raises, and otherwise returns the
    folds' predictions beside their keys, rearranged in descending order of
    prediction. *)
Theorem loocv_regression_independent_folds :
  (forall m m' X y, fit m X y = fit m' X y) ->
  forall data my_ratings fill (w : World) (m0 : Model),
    (forall k, In k (index my_ratings) -> In k (index data)) ->
    match all_folds (fold_prediction fit predict m0 (fillna data fill)
                       my_ratings) (index my_ratings) with
    | inl e => fst (loocv_regression fit predict data my_ratings fill w) = inl e
    | inr ps =>
        exists res,
          fst (loocv_regression fit predict data my_ratings fill w) = ok res /\
          Permutation res (combine (index my_ratings) ps) /\
          StronglySorted pred_ge res
    end.
Proof.
  intros Hreset data my_ratings fill w m0 Hall.
  assert (H := for_each_independent (fillna data fill) my_ratings
                 (index my_ratings) m0 Hreset).
  specialize (H (fun k Hk => eq_ind_r (fun l => In k l) (Hall k Hk)
                               (index_fillna data fill))
                (fun k Hk => Hk) ([], []) w).
  unfold loocv_regression, bind.
  destruct (for_each fit predict (fillna data fill) my_ratings
              (index my_ratings) ([], []) w) as [[e|acc] w1];
    simpl in H;
    destruct (all_folds (fold_prediction fit predict m0 (fillna data fill)
                           my_ratings) (index my_ratings)) as [e'|ps];
    simpl in *; unfold ok in *; try congruence.
  injection H as Hacc. rewrite Hacc.
  eexists. split; [reflexivity|]. split.
  - apply Permutation_sort_values_desc.
  - apply sort_values_desc_sorted.
Qed.

(** ** What a call can raise *)

Lemma first_prediction_error (m : Model) (X : DataFrame (list Q)) e :
  rbind (predict m X) getitem0 = inl e ->
  predict m X = inl e \/ (e = IndexError /\ predict m X = ok []).
Proof.
  destruct (predict m X) as [e'|[|p ps]]; simpl; intros H; inversion H; auto.
Qed.

Lemma for_each_failure data_f my_ratings idxs :
  (forall k, In k (index my_ratings) -> In k (index data_f)) ->
  (forall k, In k idxs -> In k (index my_ratings)) ->
  forall acc (w w' : World) e,
    for_each fit predict data_f my_ratings idxs acc w = (inl e, w') ->
    (exists m X y, fit m X y = inl e) \/
    (exists m X, predict m X = inl e) \/
    (e = IndexError /\ exists m X, predict m X = ok []).
Proof.
  intros Hall. induction idxs as [|idx rest IH]; intros Hsub acc w w' e H.
  - discriminate.
  - rewrite for_each_cons in H.
    assert (Hin : In idx (index my_ratings)) by (apply Hsub; now left).
    rewrite (fold_body_present _ _ _ _ _ _ _ _ Hall Hin) in H. cbn zeta in H.
    destruct (fit (model w) (training_features data_f my_ratings idx)
                  (training_targets my_ratings idx)) as [e1|m'] eqn:Efit.
    { inversion H; subst. left. eauto. }
    destruct (rbind (predict m' (rows_at data_f idx)) getitem0)
      as [e1|p0] eqn:Epred.
    { inversion H; subst. right.
      destruct (first_prediction_error _ _ _ Epred) as [Hp | [He Hp]]; eauto. }
    apply IH in H; [exact H | intros k Hk; apply Hsub; now right].
Qed.

(** X3.  A call raises only for one of four reasons: a target key without a
    feature row ([KeyError]), an exception of the model's [fit], an
    exception of its [predict], or a [predict] that returns no value
    ([IndexError]). *)
Theorem loocv_regression_failures :
  forall data my_ratings fill (w w' : World) e,
    loocv_regression fit predict data my_ratings fill w = (inl e, w') ->
    (e = KeyError /\ exists k, In k (index my_ratings) /\ ~ In k (index data)) \/
    (exists m X y, fit m X y = inl e) \/
    (exists m X, predict m X = inl e) \/
    (e = IndexError /\ exists m X, predict m X = ok []).
Proof.
  intros data my_ratings fill w w' e H.
  unfold loocv_regression, bind in H.
  destruct (for_each fit predict (fillna data fill) my_ratings
              (index my_ratings) ([], []) w) as [[e1|acc] w1] eqn:E;
    [|discriminate].
  inversion H; subst.
  destruct (keys_present_dec (index my_ratings) (index (fillna data fill)))
    as [Hall | [k [Hin Hnot]]].
  - right. eapply for_each_failure; [exact Hall | | exact E]. auto.
  - left. rewrite (for_each_missing Model fit predict _ _ _ _ _ k) in E;
      [| intros Hnil; rewrite Hnil in Hin; exact Hin | assumption | assumption].
    inversion E; subst. split; [reflexivity|].
    exists k. rewrite index_fillna in Hnot. auto.
Qed.

End LoocvRuns.

Section LoocvEdges.

Variable Model : Type.
Variable fit :
  Model -> DataFrame (list Q) -> DataFrame Q -> result Model.
Variable predict : Model -> DataFrame (list Q) -> result (list Q).

Local Abbreviation World := (World Model).

(** ** A target vector of one row *)

Lemma training_inputs_single (data_f : DataFrame (list Q)) k v :
  training_features data_f [(k, v)] k = [] /\ training_targets [(k, v)] k = [].
Proof.
  unfold training_features, training_targets. simpl.
  rewrite String.eqb_refl. simpl. auto.
Qed.

(** X4.  With a single target row the only fold has nothing to train on:
    [fit] is called once, on no feature row and no target value, and what it
    raises on that empty input is what the call raises. *)
Theorem loocv_regression_single_row :
  forall data k v fill (w : World),
    In k (index data) ->
    let run := loocv_regression fit predict data [(k, v)] fill w in
    (exists rest, trace (snd run) = trace w ++ Fit [] [] :: rest) /\
    fit_calls (trace (snd run)) = fit_calls (trace w) ++ [([], [])] /\
    (forall e, fit (model w) [] [] = inl e -> fst run = inl e).
Proof.
  intros data k v fill w Hin run. subst run.
  assert (Hall : forall k', In k' (index [(k, v)]) ->
                            In k' (index (fillna data fill))).
  { intros k' [<- | []]. now rewrite index_fillna. }
  unfold loocv_regression, bind. change (index [(k, v)]) with [k].
  rewrite for_each_cons.
  rewrite (fold_body_present _ _ _ _ _ _ _ _ Hall (or_introl eq_refl)).
  cbn zeta. cbn [fst snd].
  destruct (training_inputs_single (fillna data fill) k v) as [-> ->].
  destruct (fit (model w) [] []) as [e|m'].
  { simpl. rewrite fit_calls_app. simpl.
    repeat split; [now exists [] | intros e' He; congruence]. }
  destruct (rbind (predict m' (rows_at (fillna data fill) k)) getitem0)
    as [e|p0]; simpl; rewrite ?fit_calls_app; simpl; rewrite ?app_nil_r;
    repeat split; try discriminate.
  - eexists. rewrite <- app_assoc. reflexivity.
  - eexists. rewrite <- !app_assoc. reflexivity.
Qed.

(** ** The fill value on a matrix without missing entries *)

Lemma fillna_complete (data : DataFrame (list (option Q))) (fill fill' : Q) :
  complete data -> fillna data fill = fillna data fill'.
Proof.
  intros Hc. unfold fillna. apply map_ext_in. intros [k row] Hin. simpl.
  f_equal. apply map_ext_in. intros [v|] Hv; [reflexivity|].
  exfalso. exact (Hc k row Hin Hv).
Qed.

(** X5.  On a feature matrix without a missing entry the fill value plays
    no part: two calls that differ only in [fill] do the same. *)
Theorem loocv_regression_fill_irrelevant :
  forall dflt data my_ratings model_arg fill_arg fill_arg',
    complete data ->
    call_loocv_regression fit predict dflt data my_ratings model_arg fill_arg
    = call_loocv_regression fit predict dflt data my_ratings model_arg fill_arg'.
Proof.
  intros dflt data my_ratings model_arg fill_arg fill_arg' Hc.
  unfold call_loocv_regression, loocv_regression.
  rewrite (fillna_complete data _
             (match fill_arg' with Some f => f | None => default_fill end) Hc).
  reflexivity.
Qed.

(** ** The model object after the call *)

Lemma for_each_last_fit data_f my_ratings idxs :
  (forall k, In k (index my_ratings) -> In k (index data_f)) ->
  (forall k, In k idxs -> In k (index my_ratings)) ->
  idxs <> [] ->
  forall acc (w w' : World) acc',
    for_each fit predict data_f my_ratings idxs acc w = (inr acc', w') ->
    exists m,
      fit m (training_features data_f my_ratings (last idxs ""))
            (training_targets my_ratings (last idxs "")) = ok (model w').
Proof.
  intros Hall. induction idxs as [|idx rest IH]; intros Hsub Hne acc w w' acc' H;
    [congruence|].
  rewrite for_each_cons in H.
  assert (Hin : In idx (index my_ratings)) by (apply Hsub; now left).
  rewrite (fold_body_present _ _ _ _ _ _ _ _ Hall Hin) in H. cbn zeta in H.
  destruct (fit (model w) (training_features data_f my_ratings idx)
                (training_targets my_ratings idx)) as [e|m'] eqn:Efit;
    [discriminate|].
  destruct (rbind (predict m' (rows_at data_f idx)) getitem0) as [e|p0];
    [discriminate|].
  destruct rest as [|idx' rest'].
  - simpl in H. unfold ret in H. inversion H; subst. simpl. eauto.
  - apply IH in H; [| intros k Hk; apply Hsub; now right | discriminate].
    exact H.
Qed.

(** X6.  After a call that returns on a target vector that is not empty,
    the model object holds what [fit] left in the last fold: it is fitted on
    every target row but the last. *)
Theorem loocv_regression_last_fit :
  forall data my_ratings fill (w w' : World) res,
    my_ratings <> [] ->
    loocv_regression fit predict data my_ratings fill w = (ok res, w') ->
    let k := last (index my_ratings) "" in
    exists m,
      fit m (training_features (fillna data fill) my_ratings k)
            (training_targets my_ratings k) = ok (model w').
Proof.
  intros data my_ratings fill w w' res Hne H k. subst k.
  assert (Hall := loocv_regression_ok_present _ _ _ _ _ _ _ _ _ H).
  unfold loocv_regression, bind in H.
  destruct (for_each fit predict (fillna data fill) my_ratings
              (index my_ratings) ([], []) w) as [[e|acc] w1] eqn:E;
    [discriminate|].
  unfold ret in H. inversion H; subst.
  eapply for_each_last_fit; [exact Hall | auto | | exact E].
  destruct my_ratings; [congruence | discriminate].
Qed.

End LoocvEdges.

(** * The filled copy and the model object *)

Lemma fillna_filled_copy (data : DataFrame (list (option Q))) (fill : Q) :
  filled_copy fill data (fillna data fill).
Proof.
  unfold filled_copy, fillna.
  induction data as [|[k row] data IH]; cbn [map]; constructor;
    [|exact IH].
  cbn [fst snd]. split; [reflexivity|].
  induction row as [|c row IHrow]; cbn [map]; constructor; [|exact IHrow].
  destruct c as [v|]; reflexivity.
Qed.

Lemma refit_app {Model}
    (fit : Model -> DataFrame (list Q) -> DataFrame Q -> result Model)
    (a b : list (DataFrame (list Q) * DataFrame Q)) : forall m,
  refit fit m (a ++ b) = rbind (refit fit m a) (fun m' => refit fit m' b).
Proof.
  induction a as [|[X y] a IH]; intros m; simpl; [reflexivity|].
  destruct (fit m X y) as [e|m']; simpl; [reflexivity | apply IH].
Qed.

Lemma printed_fold_events (data_f : DataFrame (list Q)) (my_ratings : DataFrame Q)
    (kps : list (label * Q)) :
  printed (flat_map (fold_events data_f my_ratings) kps) = kps.
Proof.
  induction kps as [|[k p] kps IH]; [reflexivity|].
  cbn [flat_map]. unfold printed in *. rewrite flat_map_app, IH. reflexivity.
Qed.

Lemma fit_calls_fold_events (data_f : DataFrame (list Q))
    (my_ratings : DataFrame Q) (kps : list (label * Q)) :
  fit_calls (flat_map (fold_events data_f my_ratings) kps)
  = map (fun kp => (training_features data_f my_ratings (fst kp),
                    training_targets my_ratings (fst kp))) kps.
Proof.
  induction kps as [|[k p] kps IH]; [reflexivity|].
  cbn [flat_map]. rewrite fit_calls_app, IH. reflexivity.
Qed.

Section LoocvCopyAndObject.

Variable Model : Type.
Variable fit :
  Model -> DataFrame (list Q) -> DataFrame Q -> result Model.
Variable predict : Model -> DataFrame (list Q) -> result (list Q).

Local Abbreviation World := (World Model).

Lemma fold_body_refit data_f my_ratings acc idx (w w' : World) acc' :
  fold_body fit predict data_f my_ratings acc idx w = (inr acc', w') ->
  exists es,
    trace w' = trace w ++ es /\
    refit fit (model w) (fit_calls es) = ok (model w').
Proof.
  rewrite fold_body_eq.
  destruct (rbind (loc data_f (index my_ratings)) (fun X0 => drop X0 idx))
    as [e|X]; [discriminate|].
  destruct (drop my_ratings idx) as [e|y]; [discriminate|].
  cbn zeta.
  destruct (fit (model w) X y) as [e|m'] eqn:Efit; [discriminate|].
  destruct (loc data_f [idx]) as [e|row_df]; [discriminate|].
  destruct (rbind (predict m' row_df) getitem0) as [e|p0]; [discriminate|].
  intros H. inversion H; subst. cbn [trace model].
  exists [Fit X y; Predict row_df; Printed idx p0].
  split; [now rewrite <- !app_assoc|].
  simpl. now rewrite Efit.
Qed.

Lemma for_each_refit data_f my_ratings idxs :
  forall acc (w w' : World) acc',
    for_each fit predict data_f my_ratings idxs acc w = (inr acc', w') ->
    exists es,
      trace w' = trace w ++ es /\
      refit fit (model w) (fit_calls es) = ok (model w').
Proof.
  induction idxs as [|idx rest IH]; intros acc w w' acc' H.
  - inversion H; subst. exists []. now rewrite app_nil_r.
  - rewrite for_each_cons in H.
    destruct (fold_body fit predict data_f my_ratings acc idx w)
      as [[e|acc1] w1] eqn:E; [discriminate|].
    apply fold_body_refit in E. destruct E as [es1 [Ht1 Hr1]].
    apply IH in H. destruct H as [es2 [Ht2 Hr2]].
    exists (es1 ++ es2). split; [now rewrite Ht2, Ht1, <- app_assoc|].
    rewrite fit_calls_app, refit_app, Hr1. exact Hr2.
Qed.

Lemma loocv_regression_refit data my_ratings fill (w w' : World) res :
  loocv_regression fit predict data my_ratings fill w = (ok res, w') ->
  exists es,
    trace w' = trace w ++ es /\
    refit fit (model w) (fit_calls es) = ok (model w').
Proof.
  unfold loocv_regression, bind. intros H.
  destruct (for_each fit predict (fillna data fill) my_ratings
              (index my_ratings) ([], []) w) as [[e|acc] w1] eqn:E;
    [discriminate|].
  unfold ret in H. inversion H; subst.
  eapply for_each_refit; exact E.
Qed.

Lemma loocv_regression_ok_last_fit data my_ratings fill (w w' : World) res :
  my_ratings <> [] ->
  loocv_regression fit predict data my_ratings fill w = (ok res, w') ->
  exists m,
    fit m (training_features (fillna data fill) my_ratings
             (last (index my_ratings) ""))
          (training_targets my_ratings (last (index my_ratings) ""))
    = ok (model w').
Proof.
  intros Hne H.
  assert (Hall := loocv_regression_ok_present _ _ _ _ _ _ _ _ _ H).
  unfold loocv_regression, bind in H.
  destruct (for_each fit predict (fillna data fill) my_ratings
              (index my_ratings) ([], []) w) as [[e|acc] w1] eqn:E;
    [discriminate|].
  unfold ret in H. inversion H; subst.
  eapply for_each_last_fit; [exact Hall | auto | | exact E].
  destruct my_ratings; [congruence | discriminate].
Qed.

(** The run a call makes, with the object it works on. *)
Lemma call_loocv_regression_object dflt data my_ratings model_arg fill_arg :
  let run := loocv_regression fit predict data my_ratings (fill_used fill_arg)
               (mkWorld (model_used dflt model_arg) []) in
  let c := call_loocv_regression fit predict dflt data my_ratings
             model_arg fill_arg in
  returned c = fst run /\ events c = trace (snd run) /\
  object_after c = model (snd run).
Proof.
  unfold call_loocv_regression, fill_used, model_used, object_after.
  destruct model_arg as [m|]; cbn zeta;
    match goal with
    | |- context [loocv_regression ?f ?p ?d ?t ?fl ?w] =>
        destruct (loocv_regression f p d t fl w) as [r w']
    end; simpl; auto.
Qed.

(** C6.  The missing feature entries are filled once, in one copy of the
    feature matrix made before the loop.  The copy has the rows of the
    input under the same labels; in each row an entry that is present is
    kept and a missing entry is replaced by the fill value, which is 2 when
    the caller gives none.  Every row passed to [fit] or [predict], in every
    fold and whatever the outcome, is a row of that copy; and in a call
    that returns, each fold trains on the rows of the copy for the other
    target keys and predicts the rows of the copy for the held-out key. *)
Theorem loocv_regression_fills_once :
  forall dflt data my_ratings model_arg fill_arg,
    let fill := match fill_arg with Some f => f | None => 2 end in
    let data_f := fillna data fill in
    let c := call_loocv_regression fit predict dflt data my_ratings
               model_arg fill_arg in
    filled_copy fill data data_f /\
    Forall (drawn_from data_f) (events c) /\
    (forall res, returned c = ok res ->
       exists ps,
         List.length ps = List.length my_ratings /\
         events c = flat_map (fold_events data_f my_ratings)
                             (combine (index my_ratings) ps)).
Proof.
  intros dflt data my_ratings model_arg fill_arg fill data_f c.
  split; [apply fillna_filled_copy|].
  destruct (call_loocv_regression_object dflt data my_ratings model_arg fill_arg)
    as [Hret [Hev _]].
  fold c in Hret, Hev. rewrite Hret, Hev.
  change (fill_used fill_arg) with fill.
  destruct (loocv_regression fit predict data my_ratings fill
              (mkWorld (model_used dflt model_arg) [])) as [r w'] eqn:E.
  cbn [fst snd]. split.
  - unfold loocv_regression, bind in E. fold data_f in E.
    destruct (for_each fit predict data_f my_ratings (index my_ratings)
                ([], []) (mkWorld (model_used dflt model_arg) []))
      as [[e|acc] w1] eqn:E1;
      apply for_each_drawn in E1; destruct E1 as [es [Ht Hd]];
      unfold ret in E; inversion E; subst; simpl; rewrite Ht; exact Hd.
  - intros res ->.
    destruct (loocv_regression_ok_run _ _ _ _ _ _ _ _ _ E)
      as [ps [Hlen [Htr _]]].
    exists ps. split; [exact Hlen | exact Htr].
Qed.

(** C9, amended.  A call works on one model object, the one it is passed
    or else the object of the signature's default; the other one is not
    touched.  In a call that returns, [fit] was called once per target row,
    each time on the state the call before left in that same object, which
    stays as the last fold fitted it; and one line per target row was
    printed.  When [fit] does not read what the object held before, the
    returned frame and the calls made are the same whatever the object held
    when the call began, so a call cannot observe an earlier one. *)
Theorem loocv_regression_model_state :
  forall dflt model_arg data my_ratings fill_arg,
    let fill := match fill_arg with Some f => f | None => 2 end in
    let before := match model_arg with Some m => m | None => dflt end in
    let c := call_loocv_regression fit predict dflt data my_ratings
               model_arg fill_arg in
    match model_arg with
    | Some _ => (exists m', passed_after c = Some m') /\ default_after c = dflt
    | None => passed_after c = None
    end /\
    (forall res, returned c = ok res ->
       List.length (fit_calls (events c)) = List.length my_ratings /\
       refit fit before (fit_calls (events c)) = ok (object_after c) /\
       (my_ratings <> [] ->
        exists m,
          fit m (training_features (fillna data fill) my_ratings
                   (last (index my_ratings) ""))
                (training_targets my_ratings (last (index my_ratings) ""))
          = ok (object_after c)) /\
       exists ps,
         List.length ps = List.length my_ratings /\
         printed (events c) = combine (index my_ratings) ps) /\
    ((forall m m' X y, fit m X y = fit m' X y) ->
     forall dflt' model_arg',
       let c' := call_loocv_regression fit predict dflt' data my_ratings
                   model_arg' fill_arg in
       returned c = returned c' /\ events c = events c').
Proof.
  intros dflt model_arg data my_ratings fill_arg fill before c.
  split; [|split].
  - subst c. unfold call_loocv_regression.
    destruct model_arg as [m|];
      match goal with
      | |- context [loocv_regression ?f ?p ?d ?t ?fl ?w] =>
          destruct (loocv_regression f p d t fl w) as [r w']
      end; simpl; eauto.
  - intros res Hres.
    destruct (call_loocv_regression_object dflt data my_ratings model_arg fill_arg)
      as [Hret [Hev Hobj]].
    fold c in Hret, Hev, Hobj. rewrite Hev, Hobj. rewrite Hret in Hres.
    change (fill_used fill_arg) with fill in *.
    change (model_used dflt model_arg) with before in *.
    destruct (loocv_regression fit predict data my_ratings fill
                (mkWorld before [])) as [r w'] eqn:E.
    cbn [fst snd] in *. subst r.
    destruct (loocv_regression_ok_run _ _ _ _ _ _ _ _ _ E)
      as [ps [Hlen [Htr _]]].
    cbn [trace app] in Htr.
    assert (Hcomb : List.length (combine (index my_ratings) ps)
                    = List.length my_ratings).
    { rewrite length_combine. unfold index. rewrite length_map. lia. }
    split; [|split; [|split]].
    + rewrite Htr, fit_calls_fold_events, length_map. exact Hcomb.
    + destruct (loocv_regression_refit _ _ _ _ _ _ E) as [es [Hes Hr]].
      cbn [trace model app] in Hes, Hr. now rewrite Hes.
    + intros Hne. exact (loocv_regression_ok_last_fit _ _ _ _ _ _ Hne E).
    + exists ps. split; [exact Hlen|].
      rewrite Htr. apply printed_fold_events.
  - intros Hreset dflt' model_arg' c'.
    destruct (call_loocv_regression_object dflt data my_ratings model_arg fill_arg)
      as [Hret [Hev _]].
    destruct (call_loocv_regression_object dflt' data my_ratings model_arg' fill_arg)
      as [Hret' [Hev' _]].
    fold c in Hret, Hev. fold c' in Hret', Hev'.
    rewrite Hret, Hev, Hret', Hev'.
    unfold loocv_regression, bind.
    destruct (for_each_reset Model fit predict
                (fillna data (fill_used fill_arg)) my_ratings
                (index my_ratings) Hreset ([], [])
                (mkWorld (model_used dflt model_arg) [])
                (mkWorld (model_used dflt' model_arg') []) eq_refl) as [Hr Ht].
    repeat match goal with
           | |- context [for_each ?f ?p ?d ?t ?i ?a ?w] =>
               destruct (for_each f p d t i a w) as [[?|?] ?]
           end; simpl in *; split; congruence.
Qed.

End LoocvCopyAndObject.

(** * Cleaning *)

Lemma intersection_lists (a b : list label) :
  lists_intersection (intersection a b) a b.
Proof.
  unfold lists_intersection, intersection. split; [apply NoDup_nodup|].
  intros k. rewrite nodup_In, filter_In, has_label_In. tauto.
Qed.

Lemma index_flat_map {A} (df : DataFrame A) (labels : list label) :
  index (flat_map (rows_at df) labels)
  = flat_map (fun k => index (rows_at df k)) labels.
Proof.
  unfold index. induction labels as [|k ks IH]; simpl; [reflexivity|].
  now rewrite map_app, IH.
Qed.

Lemma index_rows_at_unique {A} (df : DataFrame A) (k : label) :
  NoDup (index df) -> In k (index df) -> index (rows_at df k) = [k].
Proof.
  unfold rows_at, index.
  induction df as [|[k0 v0] df IH]; simpl; intros Hnd Hin; [contradiction|].
  apply NoDup_cons_iff in Hnd. destruct Hnd as [Hnot Hnd].
  destruct (String.eqb k0 k) eqn:E.
  - apply String.eqb_eq in E. subst k0. simpl. f_equal.
    assert (Hnil : rows_at df k = []) by now apply rows_at_nil.
    unfold rows_at in Hnil. now rewrite Hnil.
  - apply String.eqb_neq in E. destruct Hin as [Heq | Hin]; [congruence|].
    now apply IH.
Qed.

Lemma index_loc_unique {A} (df : DataFrame A) (labels : list label) :
  NoDup (index df) -> (forall k, In k labels -> In k (index df)) ->
  index (flat_map (rows_at df) labels) = labels.
Proof.
  intros Hnd Hall. rewrite index_flat_map.
  induction labels as [|k ks IH]; simpl; [reflexivity|].
  rewrite index_rows_at_unique by (auto; apply Hall; now left).
  simpl. f_equal. apply IH. intros k' Hk'. apply Hall. now right.
Qed.

Lemma In_index_loc {A} (df : DataFrame A) (labels : list label) (k : label) :
  (forall k', In k' labels -> In k' (index df)) ->
  In k (index (flat_map (rows_at df) labels)) <-> In k labels.
Proof.
  intros Hall. split.
  - apply index_flat_map_rows_at.
  - intros Hk. apply In_index_flat_map_rows_at; auto.
Qed.

(** X7.  Cleaning never raises, whatever order the intersection is listed
    in: both frames are cut down to the albums of the intersection, every
    row kept is a row the frame had, and every row of an album rated in
    both frames is kept.  When the labels of a frame do not repeat, its
    cleaned index is the listed intersection itself, so two such frames come
    out with the same index, row for row. *)
Theorem clean_aligns :
  forall {A B} (albums : list label)
         (my_ratings : DataFrame A) (user_ratings : DataFrame B),
    lists_intersection albums (index user_ratings) (index my_ratings) ->
    exists my' user',
      clean albums my_ratings user_ratings = ok (my', user') /\
      (forall k v, In (k, v) my' <->
                   In (k, v) my_ratings /\ In k (index user_ratings)) /\
      (forall k v, In (k, v) user' <->
                   In (k, v) user_ratings /\ In k (index my_ratings)) /\
      (NoDup (index my_ratings) -> index my' = albums) /\
      (NoDup (index user_ratings) -> index user' = albums).
Proof.
  intros A B albums my_ratings user_ratings [Hnd Hin].
  assert (Hmy : forall k, In k albums -> In k (index my_ratings))
    by (intros k Hk; now apply Hin).
  assert (Huser : forall k, In k albums -> In k (index user_ratings))
    by (intros k Hk; now apply Hin).
  exists (flat_map (rows_at my_ratings) albums),
         (flat_map (rows_at user_ratings) albums).
  unfold clean. rewrite (loc_present _ _ Hmy), (loc_present _ _ Huser).
  split; [reflexivity|]. split; [|split; [|split]].
  - intros k v. split.
    + intros H. apply in_flat_map in H. destruct H as [k' [Hk' H]].
      apply In_rows_at in H. destruct H as [H Hk]. simpl in Hk. subst k'.
      auto.
    + intros [Hrow Hother]. apply in_flat_map. exists k. split.
      * apply Hin. split; [assumption|]. eapply In_index; eassumption.
      * now apply In_rows_at.
  - intros k v. split.
    + intros H. apply in_flat_map in H. destruct H as [k' [Hk' H]].
      apply In_rows_at in H. destruct H as [H Hk]. simpl in Hk. subst k'.
      auto.
    + intros [Hrow Hother]. apply in_flat_map. exists k. split.
      * apply Hin. split; [|assumption]. eapply In_index; eassumption.
      * now apply In_rows_at.
  - intros Hu. now apply index_loc_unique.
  - intros Hu. now apply index_loc_unique.
Qed.

Lemma clean_aligns_witness :
  exists my' user',
    clean ["A"; "B"] my_ratings_ABC user_ratings_ABD = ok (my', user') /\
    (forall k v, In (k, v) my' <->
                 In (k, v) my_ratings_ABC /\ In k (index user_ratings_ABD)) /\
    (forall k v, In (k, v) user' <->
                 In (k, v) user_ratings_ABD /\ In k (index my_ratings_ABC)) /\
    (NoDup (index my_ratings_ABC) -> index my' = ["A"; "B"]) /\
    (NoDup (index user_ratings_ABD) -> index user' = ["A"; "B"]).
Proof.
  exact (clean_aligns ["A"; "B"] my_ratings_ABC user_ratings_ABD
           (intersection_lists (index user_ratings_ABD) (index my_ratings_ABC))).
Defined.

Section CleanThenLoocv.

Variable Model : Type.
Variable fit :
  Model -> DataFrame (list Q) -> DataFrame Q -> result Model.
Variable predict : Model -> DataFrame (list Q) -> result (list Q).

Lemma clean_inv {A B} (albums : list label)
    (my_ratings : DataFrame A) (user_ratings : DataFrame B) my' user' :
  clean albums my_ratings user_ratings = ok (my', user') ->
  my' = flat_map (rows_at my_ratings) albums /\
  user' = flat_map (rows_at user_ratings) albums /\
  (forall k, In k albums -> In k (index my_ratings)) /\
  (forall k, In k albums -> In k (index user_ratings)).
Proof.
  unfold clean. intros H.
  destruct (loc my_ratings albums) as [e|m] eqn:Em; [discriminate|].
  destruct (loc user_ratings albums) as [e|u] eqn:Eu; [discriminate|].
  simpl in H. unfold ok in H. inversion H; subst.
  apply loc_inv in Em, Eu. tauto.
Qed.

(** X8.  On frames that went through the cleaning, the leave-one-out call
    finds a feature row for every target key: it returns a prediction per
    cleaned target row when the model's [fit] and [predict] never fail,
    and whatever it raises comes from the model, never from a missing
    key. *)
Theorem clean_then_loocv_regression :
  forall (albums : list label) (my_ratings : DataFrame Q)
         (user_ratings : DataFrame (list (option Q))) my' user' fill
         (w : World Model),
    clean albums my_ratings user_ratings = ok (my', user') ->
    ((forall m X y, exists m', fit m X y = ok m') ->
     (forall m X, X <> [] -> exists p ps, predict m X = ok (p :: ps)) ->
     exists res w',
       loocv_regression fit predict user' my' fill w = (ok res, w') /\
       Permutation (index res) (index my')) /\
    (forall e w',
       loocv_regression fit predict user' my' fill w = (inl e, w') ->
       (exists m X y, fit m X y = inl e) \/
       (exists m X, predict m X = inl e) \/
       (e = IndexError /\ exists m X, predict m X = ok [])).
Proof.
  intros albums my_ratings user_ratings my' user' fill w Hclean.
  destruct (clean_inv _ _ _ _ _ Hclean) as [-> [-> [Hmy Huser]]].
  assert (Hall : forall k,
             In k (index (flat_map (rows_at my_ratings) albums)) ->
             In k (index (fillna (flat_map (rows_at user_ratings) albums) fill))).
  { intros k Hk. rewrite index_fillna.
    apply (In_index_loc my_ratings albums k Hmy) in Hk.
    now apply (In_index_loc user_ratings albums k Huser). }
  split.
  - intros Hfit Hpred.
    destruct (for_each_total Model fit predict _ _ _ Hall (fun k Hk => Hk)
                Hfit Hpred ([], []) w) as [acc' [w' E]].
    exists (sort_values_desc (combine (fst acc') (snd acc'))), w'.
    assert (Hrun : loocv_regression fit predict
                     (flat_map (rows_at user_ratings) albums)
                     (flat_map (rows_at my_ratings) albums) fill w
                   = (ok (sort_values_desc (combine (fst acc') (snd acc'))), w')).
    { unfold loocv_regression, bind. rewrite E. reflexivity. }
    split; [exact Hrun|].
    exact (loocv_regression_ok_index Model fit predict _ _ _ _ _ _ Hrun).
  - intros e w' H. unfold loocv_regression, bind in H.
    destruct (for_each fit predict
                (fillna (flat_map (rows_at user_ratings) albums) fill)
                (flat_map (rows_at my_ratings) albums)
                (index (flat_map (rows_at my_ratings) albums)) ([], []) w)
      as [[e1|acc] w1] eqn:E; [|discriminate].
    inversion H; subst.
    eapply for_each_failure; [exact Hall | | exact E]. auto.
Qed.

End CleanThenLoocv.

Lemma clean_then_loocv_regression_witness :
  exists res w',
    loocv_regression MeanModel.fit MeanModel.predict
      [("A", [Some 4; None]); ("B", [None; Some 3])]
      [("A", 4); ("B", 2)] 2 world0 = (ok res, w') /\
    Permutation (index res) ["A"; "B"].
Proof.
  destruct (clean_then_loocv_regression MeanModel.t MeanModel.fit
              MeanModel.predict ["A"; "B"] my_ratings_ABC user_ratings_ABD
              [("A", 4); ("B", 2)]
              [("A", [Some 4; None]); ("B", [None; Some 3])] 2 world0
              eq_refl) as [Hruns _].
  apply Hruns.
  - intros m X y. eexists. reflexivity.
  - intros m [|r X] Hne; [congruence|]. eexists. eexists. reflexivity.
Defined.

(** * The loop on the example frames *)

(** The three folds of the example, with what each predicts. *)
Lemma loocv_regression_trace_witness :
  exists ps,
    List.length ps = List.length target_ABC /\
    trace (snd (loocv_regression MeanModel.fit MeanModel.predict
                  features_ABC target_ABC 2 world0)) =
    trace world0 ++ flat_map (fold_events (fillna features_ABC 2) target_ABC)
                             (combine (index target_ABC) ps) /\
    Permutation [("A", 5 # 2); ("B", 2); ("C", 3 # 2)]
                (combine (index target_ABC) ps) /\
    StronglySorted pred_ge [("A", 5 # 2); ("B", 2); ("C", 3 # 2)].
Proof.
  apply (loocv_regression_trace MeanModel.t MeanModel.fit MeanModel.predict
           features_ABC target_ABC 2 world0
           (snd (loocv_regression MeanModel.fit MeanModel.predict
                   features_ABC target_ABC 2 world0))
           [("A", 5 # 2); ("B", 2); ("C", 3 # 2)]).
  reflexivity.
Defined.

(** The averaging model forgets its state in [fit]: the folds run one by
    one, each on an object that held 7/3, predict 5/2, 2 and 3/2. *)
Lemma loocv_regression_independent_folds_witness :
  exists res,
    fst (loocv_regression MeanModel.fit MeanModel.predict
           features_ABC target_ABC 2 world0) = ok res /\
    Permutation res (combine (index target_ABC) [5 # 2; 2; 3 # 2]) /\
    StronglySorted pred_ge res.
Proof.
  exact (loocv_regression_independent_folds MeanModel.t MeanModel.fit
           MeanModel.predict (fun m m' X y => eq_refl)
           features_ABC target_ABC 2 world0 (7 # 3) (fun k Hk => Hk)).
Defined.

(** The copy of the example matrix filled with 2 (album B lacks its second
    entry), and the rows the folds handle. *)
Lemma loocv_regression_fills_once_witness :
  filled_copy 2 features_ABC
    [("A", [1; 0]); ("B", [0; 2]); ("C", [1; 1])] /\
  Forall (drawn_from [("A", [1; 0]); ("B", [0; 2]); ("C", [1; 1])])
         (events mean_default).
Proof.
  destruct (loocv_regression_fills_once MeanModel.t MeanModel.fit
              MeanModel.predict unfitted features_ABC target_ABC None None)
    as [Hcopy [Hdrawn _]].
  split; [exact Hcopy | exact Hdrawn].
Defined.

(** The averaging model forgets its state in [fit]: the value the default
    object held does not show in what the call returns. *)
Lemma loocv_regression_model_state_witness :
  returned (call_loocv_regression MeanModel.fit MeanModel.predict (7 # 3)
              features_ABC target_ABC None None)
  = returned mean_default.
Proof.
  destruct (loocv_regression_model_state MeanModel.t MeanModel.fit
              MeanModel.predict (7 # 3) None features_ABC target_ABC None)
    as [_ [_ H]].
  exact (proj1 (H (fun m m' X y => eq_refl) unfitted None)).
Defined.

(** C9, on the code: a call that leaves the model out changes the object of
    the signature's default; and two calls in a row on the same
    warm-started object return different predictions for the same data. *)
Lemma loocv_regression_model_state_survives :
  default_after mean_default <> unfitted /\
  passed_after warm_first <> Some unfitted /\
  returned warm_second <> returned warm_first.
Proof.
  repeat split; vm_compute; intros H; discriminate H.
Qed.

(** The key-mismatch example fails for the first of the four reasons. *)
Lemma loocv_regression_failures_witness :
  (KeyError = KeyError /\
   exists k, In k (index target_AB) /\ ~ In k (index features_A)) \/
  (exists m X y, MeanModel.fit m X y = inl KeyError) \/
  (exists m X, MeanModel.predict m X = inl KeyError) \/
  (KeyError = IndexError /\ exists m X, MeanModel.predict m X = ok []).
Proof.
  apply (loocv_regression_failures MeanModel.t MeanModel.fit MeanModel.predict
           features_A target_AB 2 world0 world0 KeyError).
  reflexivity.
Defined.

(** A target vector that holds album A only. *)
Lemma loocv_regression_single_row_witness :
  fit_calls (trace (snd (loocv_regression MeanModel.fit MeanModel.predict
                           features_ABC [("A", 1)] 2 world0)))
  = fit_calls (trace world0) ++ [([], [])].
Proof.
  apply (loocv_regression_single_row MeanModel.t MeanModel.fit
           MeanModel.predict features_ABC "A" 1 2 world0).
  simpl. auto.
Defined.

Lemma complete_features_AC : complete features_AC.
Proof.
  intros k row [H | [H | []]] Hin; inversion H; subst; simpl in Hin;
    intuition discriminate.
Qed.

(** Fill values 2 and 0 on the matrix without a missing entry. *)
Lemma loocv_regression_fill_irrelevant_witness :
  call_loocv_regression MeanModel.fit MeanModel.predict unfitted
    features_AC [("A", 1); ("C", 3)] None None
  = call_loocv_regression MeanModel.fit MeanModel.predict unfitted
      features_AC [("A", 1); ("C", 3)] None (Some 0).
Proof.
  apply (loocv_regression_fill_irrelevant MeanModel.t MeanModel.fit
           MeanModel.predict unfitted features_AC [("A", 1); ("C", 3)]
           None None (Some 0)).
  exact complete_features_AC.
Defined.

(** After the example the object holds the average of the targets of A and
    B: the last fold held out C. *)
Lemma loocv_regression_last_fit_witness :
  exists m,
    MeanModel.fit m
      (training_features (fillna features_ABC 2) target_ABC "C")
      (training_targets target_ABC "C")
    = ok (model (snd (loocv_regression MeanModel.fit MeanModel.predict
                        features_ABC target_ABC 2 world0))).
Proof.
  apply (loocv_regression_last_fit MeanModel.t MeanModel.fit MeanModel.predict
           features_ABC target_ABC 2 world0 _
           [("A", 5 # 2); ("B", 2); ("C", 3 # 2)]).
  - discriminate.
  - reflexivity.
Defined.

(** * Evaluation: what it raises *)

Lemma all_finite_None (col : list (option float)) :
  In None col -> all_finite col = raise ValueError.
Proof.
  induction col as [|[v|] col IH]; simpl; intros Hin.
  - contradiction.
  - destruct Hin as [H | Hin]; [discriminate|].
    destruct (PrimFloat.is_finite v); [|reflexivity]. now rewrite IH.
  - reflexivity.
Qed.

Lemma check_array_None (col : list (option float)) :
  In None col -> check_array col = raise ValueError.
Proof.
  intros Hin. destruct col as [|c col]; [contradiction|].
  unfold check_array. now apply all_finite_None.
Qed.

Lemma all_finite_error (col : list (option float)) e :
  all_finite col = inl e -> e = ValueError.
Proof.
  induction col as [|[v|] col IH]; simpl; intros H.
  - discriminate.
  - destruct (PrimFloat.is_finite v); [|unfold raise in H; congruence].
    destruct (all_finite col) as [e'|vs]; simpl in H; [|discriminate].
    inversion H; subst. now apply IH.
  - unfold raise in H. congruence.
Qed.

Lemma check_array_error (col : list (option float)) e :
  check_array col = inl e -> e = ValueError.
Proof.
  destruct col as [|c col]; unfold check_array.
  - unfold raise. congruence.
  - apply all_finite_error.
Qed.

Lemma lookup_None {A} (df : DataFrame A) (k : label) :
  ~ In k (index df) -> lookup df k = None.
Proof.
  intros Hnot. unfold lookup. apply rows_at_nil in Hnot. now rewrite Hnot.
Qed.

Lemma index_equals_refl (a : list label) : index_equals a a = true.
Proof.
  induction a as [|x a IH]; simpl; [reflexivity|].
  now rewrite String.eqb_refl, IH.
Qed.

Lemma concat_axis1_unique {A} (predictions my_ratings : DataFrame A) :
  NoDup (index predictions) -> NoDup (index my_ratings) ->
  concat_axis1 predictions my_ratings
  = ok (map (fun k => (k, (lookup predictions k, lookup my_ratings k)))
            (union_index (index predictions) (index my_ratings))).
Proof.
  intros Hp Ht. unfold concat_axis1.
  destruct (index_equals (index predictions) (index my_ratings)) eqn:E.
  - apply index_equals_eq in E.
    rewrite (concat_equal_index _ _ Hp E), union_index_same;
      [reflexivity | intros k Hk; now rewrite E].
  - apply is_unique_NoDup in Hp, Ht. now rewrite Hp, Ht.
Qed.

Lemma In_union_index (a b : list label) (k : label) :
  In k (union_index a b) <-> In k a \/ In k b.
Proof.
  unfold union_index. rewrite in_app_iff, filter_In, negb_true_iff, has_label_false.
  destruct (in_dec string_dec k a); tauto.
Qed.

Lemma evaluate_raises_on_NaN np_sum (df : DataFrame (option float * option float)) :
  In None (col_SCORE df) \/ In None (col_prediction df) ->
  r2_score np_sum (col_SCORE df) (col_prediction df) = raise ValueError.
Proof.
  intros [H | H]; unfold r2_score.
  - now rewrite (check_array_None _ H).
  - destruct (check_array (col_SCORE df)) as [e|yt] eqn:E; simpl.
    + apply check_array_error in E. now subst e.
    + now rewrite (check_array_None _ H).
Qed.

(** X9.  A key that only one of the two frames holds makes [evaluate]
    raise: the join leaves a NaN beside it, and scikit-learn rejects the
    column with a [ValueError].  No row is dropped to make the frames
    match. *)
Theorem evaluate_unmatched_key :
  forall np_sum predictions my_ratings k,
    NoDup (index predictions) -> NoDup (index my_ratings) ->
    (In k (index predictions) /\ ~ In k (index my_ratings)) \/
    (In k (index my_ratings) /\ ~ In k (index predictions)) ->
    evaluate np_sum predictions my_ratings = raise ValueError.
Proof.
  intros np_sum predictions my_ratings k Hp Ht Hk. unfold evaluate.
  rewrite (concat_axis1_unique _ _ Hp Ht). cbn [rbind ok].
  rewrite evaluate_raises_on_NaN; [reflexivity|].
  destruct Hk as [[Hin Hnot] | [Hin Hnot]].
  - left. unfold col_SCORE. rewrite map_map. cbn [snd]. apply in_map_iff.
    exists k. split; [now apply lookup_None|].
    apply In_union_index. now left.
  - right. unfold col_prediction. rewrite map_map. cbn [fst snd].
    apply in_map_iff. exists k. split; [now apply lookup_None|].
    apply In_union_index. now right.
Qed.

Lemma evaluate_unmatched_key_witness :
  evaluate sequential_sum [("A", 4%float); ("B", 3%float)] [("A", 4%float)]
  = raise ValueError.
Proof.
  apply (evaluate_unmatched_key sequential_sum
           [("A", 4%float); ("B", 3%float)] [("A", 4%float)] "B").
  - repeat constructor; simpl; intuition discriminate.
  - repeat constructor; simpl; intuition discriminate.
  - left. simpl. split; [auto | intuition discriminate].
Defined.

(** ** Numbers that are not finite *)

Lemma all_finite_bad (col : list (option float)) (v : float) :
  In (Some v) col -> PrimFloat.is_finite v = false ->
  all_finite col = raise ValueError.
Proof.
  intros Hin Hv. induction col as [|[u|] col IH]; simpl.
  - contradiction.
  - destruct (PrimFloat.is_finite u) eqn:Eu; [|reflexivity].
    destruct Hin as [Heq | Hin]; [inversion Heq; congruence|].
    now rewrite (IH Hin).
  - reflexivity.
Qed.

Lemma check_array_bad (col : list (option float)) (v : float) :
  In (Some v) col -> PrimFloat.is_finite v = false ->
  check_array col = raise ValueError.
Proof.
  intros Hin Hv. destruct col as [|c col]; [contradiction|].
  unfold check_array. now apply (all_finite_bad _ v).
Qed.

(** X27.  A prediction or a score that is NaN or infinite makes [evaluate]
    raise: scikit-learn rejects the column with a [ValueError], and no
    metric is computed on the remaining rows. *)
Theorem evaluate_non_finite :
  forall np_sum predictions my_ratings k v,
    NoDup (index predictions) -> NoDup (index my_ratings) ->
    In (k, v) predictions \/ In (k, v) my_ratings ->
    PrimFloat.is_finite v = false ->
    evaluate np_sum predictions my_ratings = raise ValueError.
Proof.
  intros np_sum predictions my_ratings k v Hp Ht Hin Hv. unfold evaluate.
  rewrite (concat_axis1_unique _ _ Hp Ht). cbn [rbind ok]. unfold r2_score.
  destruct Hin as [Hin | Hin].
  - destruct (check_array
                (col_SCORE
                   (map (fun k0 => (k0, (lookup predictions k0,
                                         lookup my_ratings k0)))
                        (union_index (index predictions) (index my_ratings)))))
      as [e|yt] eqn:E; simpl.
    + apply check_array_error in E. now subst e.
    + rewrite (check_array_bad _ v); [reflexivity | | exact Hv].
      unfold col_prediction. rewrite map_map. cbn [fst snd].
      apply in_map_iff. exists k. split; [now apply lookup_In|].
      apply In_union_index. left. eapply In_index; eassumption.
  - rewrite (check_array_bad _ v); [reflexivity | | exact Hv].
    unfold col_SCORE. rewrite map_map. cbn [snd].
    apply in_map_iff. exists k. split; [now apply lookup_In|].
    apply In_union_index. right. eapply In_index; eassumption.
Qed.

(** A model that predicts NaN for album B. *)
Lemma evaluate_non_finite_witness :
  evaluate sequential_sum [("A", 4%float); ("B", PrimFloat.nan)]
                          [("A", 4%float); ("B", 3%float)]
  = raise ValueError.
Proof.
  apply (evaluate_non_finite sequential_sum
           [("A", 4%float); ("B", PrimFloat.nan)]
           [("A", 4%float); ("B", 3%float)] "B" PrimFloat.nan).
  - repeat constructor; simpl; intuition discriminate.
  - repeat constructor; simpl; intuition discriminate.
  - left. simpl. auto.
  - reflexivity.
Defined.

(** ** The RMSE is never negative *)

Lemma all_finite_ok (col : list (option float)) (vs : list float) :
  all_finite col = ok vs ->
  col = map Some vs /\ Forall (fun v => PrimFloat.is_finite v = true) vs.
Proof.
  revert vs. induction col as [|[v|] col IH]; simpl; intros vs H.
  - unfold ok in H. inversion H. split; [reflexivity | constructor].
  - destruct (PrimFloat.is_finite v) eqn:Ev; [|discriminate].
    destruct (all_finite col) as [e|vs'] eqn:E; simpl in H; [discriminate|].
    unfold ok in H. inversion H; subst.
    destruct (IH vs' eq_refl) as [-> Hfin].
    split; [reflexivity | now constructor].
  - discriminate.
Qed.

Lemma check_array_ok (col : list (option float)) (vs : list float) :
  check_array col = ok vs ->
  col = map Some vs /\ vs <> [] /\
  Forall (fun v => PrimFloat.is_finite v = true) vs.
Proof.
  destruct col as [|c col]; unfold check_array; [discriminate|].
  intros H. apply all_finite_ok in H. destruct H as [H Hfin].
  split; [exact H|]. split; [|exact Hfin].
  intros ->. discriminate H.
Qed.

Lemma length_concat_axis1 {A} (predictions my_ratings : DataFrame A) df :
  concat_axis1 predictions my_ratings = ok df ->
  (List.length df <= List.length predictions + List.length my_ratings)%nat.
Proof.
  unfold concat_axis1.
  destruct (index_equals (index predictions) (index my_ratings)).
  - intros H. unfold ok in H. inversion H; subst.
    rewrite length_map, length_combine. lia.
  - destruct (is_unique (index predictions) && is_unique (index my_ratings));
      [|discriminate].
    intros H. unfold ok in H. inversion H; subst.
    rewrite length_map. unfold union_index, index.
    rewrite length_app, length_map.
    assert (Hf := filter_length_le
                    (fun k => negb (has_label k (map fst predictions)))
                    (map fst my_ratings)).
    rewrite length_map in Hf. lia.
Qed.

Lemma evaluate_inv np_sum (predictions my_ratings : DataFrame float) r2 rmse :
  evaluate np_sum predictions my_ratings = ok (r2, rmse) ->
  exists yt yp,
    yt <> [] /\ List.length yt = List.length yp /\
    (List.length yt <= List.length predictions + List.length my_ratings)%nat /\
    Forall (fun v => PrimFloat.is_finite v = true) yt /\
    Forall (fun v => PrimFloat.is_finite v = true) yp /\
    r2 = r2_value np_sum yt yp /\
    rmse = PrimFloat.sqrt (np_average np_sum (squared_residuals yt yp)).
Proof.
  unfold evaluate, r2_score, mean_squared_error.
  destruct (concat_axis1 predictions my_ratings) as [e|df] eqn:Edf;
    [discriminate|].
  cbn [rbind].
  destruct (check_array (col_SCORE df)) as [e|yt] eqn:Et; [discriminate|].
  cbn [rbind].
  destruct (check_array (col_prediction df)) as [e|yp] eqn:Ep; [discriminate|].
  cbn [rbind]. unfold ok. intros H. inversion H; subst.
  apply check_array_ok in Et, Ep.
  destruct Et as [Hct [Hne Hft]]. destruct Ep as [Hcp [_ Hfp]].
  assert (Hlt : List.length yt = List.length df).
  { rewrite <- (length_map Some yt), <- Hct.
    unfold col_SCORE. now rewrite length_map. }
  assert (Hlp : List.length yp = List.length df).
  { rewrite <- (length_map Some yp), <- Hcp.
    unfold col_prediction. now rewrite length_map. }
  exists yt, yp. repeat split; try assumption; try congruence.
  rewrite Hlt. now apply length_concat_axis1.
Qed.

Lemma squared_residuals_nonneg (yt : list float) : forall yp,
  Forall (fun v => PrimFloat.is_finite v = true) yt ->
  Forall (fun v => PrimFloat.is_finite v = true) yp ->
  Forall (fun x => (0 <=? x)%float = true) (squared_residuals yt yp).
Proof.
  unfold squared_residuals.
  induction yt as [|t yt IH]; intros [|p yp] Ht Hp; simpl; try constructor.
  - inversion Ht; inversion Hp; subst. now apply square_residual_nonneg.
  - inversion Ht; inversion Hp; subst. now apply IH.
Qed.

Lemma length_squared_residuals (yt yp : list float) :
  List.length yt = List.length yp ->
  List.length (squared_residuals yt yp) = List.length yt.
Proof.
  intros H. unfold squared_residuals. rewrite length_map, length_combine. lia.
Qed.

(** X10.  Whenever [evaluate] returns, the RMSE it returns is a number that
    is not below 0 (never NaN), on frames of fewer than 2^53 rows in all and
    in whatever order the sums are added, as long as numbers that are not
    below 0 add up to a number that is not below 0. *)
Theorem evaluate_rmse_nonneg :
  forall np_sum predictions my_ratings r2 rmse,
    sums_nonneg np_sum ->
    (Z.of_nat (List.length predictions + List.length my_ratings) < 2 ^ 53)%Z ->
    evaluate np_sum predictions my_ratings = ok (r2, rmse) ->
    (0 <=? rmse)%float = true.
Proof.
  intros np_sum predictions my_ratings r2 rmse Hnn Hb H.
  apply evaluate_inv in H.
  destruct H as [yt [yp [Hne [Hlen [Hle [Hft [Hfp [_ ->]]]]]]]].
  apply sqrt_nonneg. unfold np_average.
  rewrite (length_squared_residuals _ _ Hlen).
  apply div_count_nonneg.
  - destruct yt; [congruence | simpl; lia].
  - lia.
  - apply Hnn. now apply squared_residuals_nonneg.
Qed.

Lemma evaluate_rmse_nonneg_witness :
  (0 <=? PrimFloat.sqrt 2)%float = true.
Proof.
  apply (evaluate_rmse_nonneg sequential_sum predictions_421 truth_333
           0%float (PrimFloat.sqrt 2)).
  - exact sequential_sum_nonneg.
  - simpl. lia.
  - vm_compute. reflexivity.
Defined.

(** ** Evaluating what the loop returns *)

Section LoocvThenEvaluate.

Variable Model : Type.
Variable fit :
  Model -> DataFrame (list Q) -> DataFrame Q -> result Model.
Variable predict : Model -> DataFrame (list Q) -> result (list Q).

(** X12.  The frame a leave-one-out call returns can always be evaluated
    against the target vector it was computed from, when that vector is
    not empty and its keys do not repeat: whatever finite numbers the two
    frames hold under the keys of the result and of the target, the join
    finds a prediction for every key and [evaluate] raises nothing; and the
    RMSE is not below 0 (on fewer than 2^53 rows, when numbers that are not
    below 0 add up to a number that is not below 0). *)
Theorem loocv_regression_then_evaluate :
  forall data my_ratings fill (w w' : World Model) res,
    my_ratings <> [] ->
    NoDup (index my_ratings) ->
    loocv_regression fit predict data my_ratings fill w = (ok res, w') ->
    forall np_sum (predictions truth : DataFrame float),
      index predictions = index res ->
      index truth = index my_ratings ->
      all_values_finite predictions -> all_values_finite truth ->
      exists r2 rmse,
        evaluate np_sum predictions truth = ok (r2, rmse) /\
        (sums_nonneg np_sum ->
         (Z.of_nat (List.length my_ratings) < 2 ^ 53)%Z ->
         (0 <=? rmse)%float = true).
Proof.
  intros data my_ratings fill w w' res Hne Hnd H
         np_sum predictions truth Hip Hit Hfp Hft.
  assert (Hperm := loocv_regression_ok_index Model fit predict _ _ _ _ _ _ H).
  rewrite <- Hip, <- Hit in Hperm.
  assert (Hnd' : NoDup (index predictions)).
  { eapply Permutation_NoDup; [symmetry; exact Hperm|]. now rewrite Hit. }
  assert (Hres : predictions <> []).
  { intros ->. simpl in Hperm. apply Permutation_nil in Hperm.
    rewrite Hit in Hperm. destruct my_ratings; [congruence | discriminate]. }
  eexists. eexists.
  split; [apply (evaluate_matching np_sum _ _ Hres Hnd' Hperm Hfp Hft)|].
  intros Hnn Hb.
  assert (Hlen : List.length (map (value_at truth) (index predictions))
                 = List.length my_ratings).
  { rewrite length_map. apply Permutation_length in Hperm.
    rewrite Hperm, Hit. unfold index. now rewrite length_map. }
  apply sqrt_nonneg. unfold np_average.
  rewrite length_squared_residuals, Hlen by now rewrite !length_map.
  apply div_count_nonneg.
  - destruct my_ratings; [congruence | simpl; lia].
  - exact Hb.
  - apply Hnn. now apply residuals_nonneg.
Qed.

End LoocvThenEvaluate.

(** The example's loop, then its evaluation on the floats of the returned
    frame (2.5, 2, 1.5) and of the target (1, 2, 3). *)
Lemma loocv_regression_then_evaluate_witness :
  exists r2 rmse,
    evaluate sequential_sum
      [("A", 2.5%float); ("B", 2%float); ("C", 1.5%float)] truth_123
    = ok (r2, rmse) /\
    (sums_nonneg sequential_sum ->
     (Z.of_nat (List.length target_ABC) < 2 ^ 53)%Z ->
     (0 <=? rmse)%float = true).
Proof.
  apply (loocv_regression_then_evaluate MeanModel.t MeanModel.fit
           MeanModel.predict features_ABC target_ABC 2 world0
           (snd (loocv_regression MeanModel.fit MeanModel.predict
                   features_ABC target_ABC 2 world0))
           [("A", 5 # 2); ("B", 2); ("C", 3 # 2)]).
  - discriminate.
  - repeat constructor; simpl; intuition discriminate.
  - reflexivity.
  - reflexivity.
  - reflexivity.
  - apply all_values_finite_by_check. reflexivity.
  - apply all_values_finite_by_check. reflexivity.
Defined.

(** * Genres *)

Lemma startswith_append (s w : string) :
  startswith s w = true <-> exists post, s = (w ++ post)%string.
Proof.
  revert s. induction w as [|c w IH]; intros s; simpl.
  - split; [intros _; now exists s | reflexivity].
  - destruct s as [|c' s]; [split; [discriminate | intros [post H]; discriminate]|].
    rewrite andb_true_iff, Ascii.eqb_eq, IH.
    split.
    + intros [-> [post ->]]. now exists post.
    + intros [post H]. inversion H. eauto.
Qed.

Lemma contains_spec (w s : string) :
  contains w s = true <-> exists pre post, s = (pre ++ w ++ post)%string.
Proof.
  induction s as [|c s IH]; simpl.
  - destruct (startswith "" w) eqn:E.
    + apply startswith_append in E. destruct E as [post E].
      split; [intros _; now exists EmptyString, post | reflexivity].
    + split; [discriminate|]. intros [pre [post H]].
      destruct pre; [|discriminate]. simpl in H.
      assert (E' : startswith "" w = true) by (apply startswith_append; eauto).
      congruence.
  - destruct (startswith (String c s) w) eqn:E.
    + apply startswith_append in E. destruct E as [post E].
      split; [intros _; now exists EmptyString, post | reflexivity].
    + rewrite IH. split.
      * intros [pre [post H]]. exists (String c pre), post. simpl. congruence.
      * intros [pre [post H]]. destruct pre as [|c' pre].
        -- simpl in H.
           assert (E' : startswith (String c s) w = true)
             by (apply startswith_append; eauto).
           congruence.
        -- simpl in H. inversion H. eauto.
Qed.

(** ** Splitting a genre string *)

Lemma split_step (c c2 : ascii) (s'' : string) :
  split (String c (String c2 s''))
  = if Ascii.eqb c ","%char && Ascii.eqb c2 " "%char
    then EmptyString :: split s''
    else cons_first c (split (String c2 s'')).
Proof. reflexivity. Qed.

Lemma cons_first_not_nil (c : ascii) (pieces : list string) :
  cons_first c pieces <> [].
Proof. destruct pieces; discriminate. Qed.

Lemma split_not_nil (s : string) : split s <> [].
Proof.
  destruct s as [|c [|c2 s'']]; [discriminate | discriminate |].
  rewrite split_step.
  destruct (Ascii.eqb c ","%char && Ascii.eqb c2 " "%char);
    [discriminate | apply cons_first_not_nil].
Qed.

Lemma join_cons_first (c : ascii) (pieces : list string) :
  pieces <> [] -> join (cons_first c pieces) = String c (join pieces).
Proof.
  destruct pieces as [|t [|t' ts]]; simpl; [congruence | reflexivity | reflexivity].
Qed.

Lemma join_split_bounded (n : nat) :
  forall s, (String.length s <= n)%nat -> join (split s) = s.
Proof.
  induction n as [|n IH]; intros s Hlen.
  - destruct s; [reflexivity | simpl in Hlen; lia].
  - destruct s as [|c [|c2 s'']]; [reflexivity | reflexivity |].
    simpl in Hlen. rewrite split_step.
    destruct (Ascii.eqb c ","%char && Ascii.eqb c2 " "%char) eqn:E.
    + apply andb_true_iff in E. destruct E as [Ec Ec2].
      apply Ascii.eqb_eq in Ec, Ec2. subst c c2.
      assert (Hrec : join (split s'') = s'') by (apply IH; lia).
      cbn [join]. destruct (split s'') as [|t ts] eqn:Es.
      * now apply split_not_nil in Es.
      * rewrite Hrec. reflexivity.
    + rewrite join_cons_first by apply split_not_nil.
      f_equal. apply IH. simpl. lia.
Qed.

(** X13.  Splitting a genre string loses nothing: there is always at least
    one piece, and joining the pieces with ", " gives the string back. *)
Theorem split_join_roundtrip :
  forall genres, split genres <> [] /\ join (split genres) = genres.
Proof.
  intros genres. split; [apply split_not_nil|].
  apply (join_split_bounded (String.length genres)). lia.
Qed.

(** ** Words and tags *)

Lemma string_app_assoc (a b c : string) :
  ((a ++ b) ++ c = a ++ b ++ c)%string.
Proof. induction a as [|x a IH]; simpl; [reflexivity | now rewrite IH]. Qed.

Lemma no_comma_prefix (w a b post : string) :
  no_comma w = true ->
  (a ++ String "," b = w ++ post)%string ->
  exists post', a = (w ++ post')%string.
Proof.
  revert a. induction w as [|x w IH]; intros a Hw H.
  - now exists a.
  - simpl in Hw. apply andb_true_iff in Hw. destruct Hw as [Hx Hw].
    destruct a as [|y a]; simpl in H; inversion H; subst.
    + rewrite Ascii.eqb_refl in Hx. discriminate.
    + destruct (IH a Hw H2) as [post' ->]. now exists post'.
Qed.

Lemma occurrence_beside_comma (pre a b w post : string) :
  no_comma w = true ->
  (a ++ String "," b = pre ++ w ++ post)%string ->
  (exists post', a = (pre ++ w ++ post')%string) \/
  (exists pre', b = (pre' ++ w ++ post)%string).
Proof.
  intros Hw. revert a. induction pre as [|p pre IH]; intros a H.
  - left. simpl in *. eapply no_comma_prefix; eassumption.
  - destruct a as [|y a]; simpl in H; inversion H; subst.
    + right. now exists pre.
    + destruct (IH a H2) as [[post' ->] | [pre' ->]].
      * left. now exists post'.
      * right. now exists pre'.
Qed.

Lemma plain_word_inv (w : string) :
  plain_word w = true ->
  no_comma w = true /\ exists c w', w = String c w' /\ c <> " "%char.
Proof.
  destruct w as [|c w']; [discriminate|]. unfold plain_word.
  rewrite andb_true_iff, negb_true_iff. intros [Hc Hw]. split; [exact Hw|].
  exists c, w'. split; [reflexivity|]. now apply Ascii.eqb_neq.
Qed.

Lemma contains_join_tag (w : string) (tags : list string) :
  plain_word w = true ->
  contains w (join tags) = true ->
  exists t, In t tags /\ contains w t = true.
Proof.
  intros Hplain. destruct (plain_word_inv w Hplain) as [Hw [c [w' [Hcw Hc]]]].
  induction tags as [|t rest IH]; intros H.
  - simpl in H. subst w. discriminate.
  - destruct rest as [|t2 rest'].
    + exists t. split; [now left | exact H].
    + change (join (t :: t2 :: rest'))
        with (t ++ String "," (String " " (join (t2 :: rest'))))%string in H.
      apply contains_spec in H. destruct H as [pre [post H]].
      destruct (occurrence_beside_comma _ _ _ _ _ Hw H)
        as [[post' Ht] | [pre' Hrest]].
      * exists t. split; [now left|]. apply contains_spec. eauto.
      * destruct pre' as [|p pre'']; simpl in Hrest.
        -- rewrite Hcw in Hrest. simpl in Hrest. inversion Hrest. congruence.
        -- inversion Hrest; subst.
           destruct IH as [t' [Hin Ht']].
           { apply contains_spec. eauto. }
           exists t'. split; [now right | exact Ht'].
Qed.

Lemma join_In (tags : list string) (t : string) :
  In t tags -> exists a b, join tags = (a ++ t ++ b)%string.
Proof.
  induction tags as [|t0 rest IH]; intros Hin; [contradiction|].
  destruct rest as [|t2 rest'].
  - destruct Hin as [-> | []]. exists EmptyString, EmptyString. simpl.
    induction t as [|x t IHt]; simpl; [reflexivity | now rewrite <- IHt].
  - change (join (t0 :: t2 :: rest'))
      with (t0 ++ ", " ++ join (t2 :: rest'))%string.
    destruct Hin as [-> | Hin].
    + exists EmptyString, (", " ++ join (t2 :: rest'))%string. reflexivity.
    + destruct (IH Hin) as [a [b ->]].
      exists (t0 ++ ", " ++ a)%string, b.
      rewrite !string_app_assoc. reflexivity.
Qed.

Lemma contains_tag_join (w : string) (tags : list string) (t : string) :
  In t tags -> contains w t = true -> contains w (join tags) = true.
Proof.
  intros Hin Ht. apply contains_spec in Ht. destruct Ht as [pre [post ->]].
  destruct (join_In _ _ Hin) as [a [b ->]]. apply contains_spec.
  exists (a ++ pre)%string, (post ++ b)%string.
  rewrite !string_app_assoc. reflexivity.
Qed.

Lemma words_to_check_plain :
  forall w, In w words_to_check -> plain_word w = true.
Proof.
  apply forallb_forall. vm_compute. reflexivity.
Qed.

(** X14.  For every word of [words_to_check], the test on the whole genre
    string says what a test tag by tag would say: the flag is set exactly
    when the word occurs inside one of the tags that [split] gives. *)
Theorem genre_flag_by_tags :
  forall word genres,
    In word words_to_check ->
    (check_for_a_word word genres = true <->
     exists tag, In tag (split genres) /\ contains word tag = true).
Proof.
  intros word genres Hin. unfold check_for_a_word.
  split.
  - intros H. apply contains_join_tag; [now apply words_to_check_plain|].
    now rewrite (join_split_bounded (String.length genres) genres (le_n _)).
  - intros [tag [Htag Hw]].
    rewrite <- (join_split_bounded (String.length genres) genres (le_n _)).
    eapply contains_tag_join; eassumption.
Qed.

Lemma genre_flag_by_tags_witness :
  check_for_a_word "Punk" "Post-Punk, Art Rock" = true <->
  exists tag, In tag (split "Post-Punk, Art Rock") /\ contains "Punk" tag = true.
Proof.
  apply (genre_flag_by_tags "Punk" "Post-Punk, Art Rock").
  vm_compute. tauto.
Defined.

(** ** One row per album and tag *)

Lemma explode_genres_split_cons (k : label) (g : string)
    (metadata : DataFrame string) :
  explode (genres_split ((k, g) :: metadata))
  = map (fun tag => (k, tag)) (split g) ++ explode (genres_split metadata).
Proof. reflexivity. Qed.

Lemma rows_at_tags_same (k : label) (tags : list string) :
  rows_at (map (fun tag => (k, tag)) tags) k = map (fun tag => (k, tag)) tags.
Proof.
  unfold rows_at. induction tags as [|t tags IH]; simpl; [reflexivity|].
  rewrite String.eqb_refl. now rewrite IH.
Qed.

Lemma rows_at_tags_other (k k0 : label) (tags : list string) :
  k0 <> k -> rows_at (map (fun tag => (k0, tag)) tags) k = [].
Proof.
  intros Hne. unfold rows_at. apply String.eqb_neq in Hne.
  induction tags as [|t tags IH]; simpl; [reflexivity|]. now rewrite Hne.
Qed.

Lemma rows_at_app {A} (df df' : DataFrame A) (k : label) :
  rows_at (df ++ df') k = rows_at df k ++ rows_at df' k.
Proof. unfold rows_at. apply filter_app. Qed.

Lemma index_explode_genres_split (metadata : DataFrame string) (k : label) :
  In k (index (explode (genres_split metadata))) <-> In k (index metadata).
Proof.
  induction metadata as [|[k0 g0] metadata IH]; [reflexivity|].
  rewrite explode_genres_split_cons. unfold index in *.
  rewrite map_app, in_app_iff, IH.
  rewrite map_map. simpl. split.
  - intros [H | H]; [|now right]. apply in_map_iff in H.
    destruct H as [t [Hk _]]. now left.
  - intros [H | H]; [|now right]. left. apply in_map_iff.
    destruct (split g0) as [|t ts] eqn:E; [now apply split_not_nil in E|].
    exists t. split; [assumption | now left].
Qed.

Lemma rows_at_explode_genres_split (metadata : DataFrame string)
    (k : label) (g : string) :
  NoDup (index metadata) -> In (k, g) metadata ->
  rows_at (explode (genres_split metadata)) k
  = map (fun tag => (k, tag)) (split g).
Proof.
  induction metadata as [|[k0 g0] metadata IH]; intros Hnd Hin; [contradiction|].
  simpl in Hnd. apply NoDup_cons_iff in Hnd. destruct Hnd as [Hnot Hnd].
  rewrite explode_genres_split_cons, rows_at_app. destruct Hin as [Heq | Hin].
  - inversion Heq; subst. rewrite rows_at_tags_same.
    assert (Hnil : rows_at (explode (genres_split metadata)) k = []).
    { apply rows_at_nil. now rewrite index_explode_genres_split. }
    rewrite Hnil. apply app_nil_r.
  - rewrite rows_at_tags_other.
    + simpl. now apply IH.
    + intros ->. apply Hnot. eapply In_index; eassumption.
Qed.

(** X15.  On a metadata frame without a row the cell that builds the genre
    frame raises [KeyError].  Otherwise the exploded genre frame has the
    albums of the metadata, each with at least one row, and when the albums
    do not repeat the rows of an album are the tags of its genre string, in
    order: joined with ", " they give the string back. *)
Theorem genres_df_rows :
  forall metadata,
    (metadata = [] -> genres_df metadata = raise KeyError) /\
    (metadata <> [] ->
     exists df,
       genres_df metadata = ok df /\
       (forall k, In k (index df) <-> In k (index metadata)) /\
       (NoDup (index metadata) ->
        forall k g, In (k, g) metadata ->
          map snd (rows_at df k) = split g /\
          join (map snd (rows_at df k)) = g)).
Proof.
  intros metadata. split; [intros ->; reflexivity|].
  intros Hne. exists (explode (genres_split metadata)). split; [|split].
  - destruct metadata; [congruence | reflexivity].
  - intros k. apply index_explode_genres_split.
  - intros Hnd k g Hin.
    rewrite (rows_at_explode_genres_split _ _ _ Hnd Hin), map_map. simpl.
    rewrite map_id. split; [reflexivity|].
    apply (join_split_bounded (String.length g)). lia.
Qed.

(** * Decades *)

(** X16.  The decade of a year is the multiple of 10 that begins the ten
    years the year falls in, and no other multiple of 10 does. *)
Theorem decade_window :
  forall year,
    (decade year <= year < decade year + 10)%Z /\
    (decade year mod 10 = 0)%Z /\
    (forall d, (d mod 10 = 0)%Z -> (d <= year < d + 10)%Z -> d = decade year).
Proof.
  intros year. unfold decade. repeat split.
  - Z.div_mod_to_equations. lia.
  - Z.div_mod_to_equations. lia.
  - Z.div_mod_to_equations. lia.
  - intros d Hd Hw. Z.div_mod_to_equations. lia.
Qed.

(** ** Dummy columns *)

Lemma In_insert_unique (x y : Z) (l : list Z) :
  In y (insert_unique x l) <-> y = x \/ In y l.
Proof.
  induction l as [|z l IH]; simpl.
  - intuition.
  - destruct (x <? z)%Z eqn:Elt; [simpl; intuition|].
    destruct (x =? z)%Z eqn:Eeq.
    + apply Z.eqb_eq in Eeq. subst z. simpl. intuition.
    + simpl. rewrite IH. intuition.
Qed.

Lemma insert_unique_sorted (x : Z) (l : list Z) :
  StronglySorted Z.lt l -> StronglySorted Z.lt (insert_unique x l).
Proof.
  intros Hs. induction Hs as [|z l Hs IH Hz]; simpl.
  - constructor; constructor.
  - destruct (x <? z)%Z eqn:Elt.
    + apply Z.ltb_lt in Elt. constructor; [now constructor|].
      constructor; [exact Elt|].
      rewrite Forall_forall in *. intros y Hy. specialize (Hz y Hy). lia.
    + destruct (x =? z)%Z eqn:Eeq; [now constructor|].
      apply Z.ltb_ge in Elt. apply Z.eqb_neq in Eeq.
      constructor; [exact IH|].
      rewrite Forall_forall in *. intros y Hy.
      apply In_insert_unique in Hy. destruct Hy as [-> | Hy]; [lia | auto].
Qed.

Lemma sorted_unique_sorted (l : list Z) :
  StronglySorted Z.lt (sorted_unique l).
Proof.
  induction l as [|x l IH]; simpl; [constructor | now apply insert_unique_sorted].
Qed.

Lemma In_sorted_unique (l : list Z) (y : Z) :
  In y (sorted_unique l) <-> In y l.
Proof.
  induction l as [|x l IH]; simpl; [reflexivity|].
  rewrite In_insert_unique, IH. intuition.
Qed.

Lemma zsum_indicator_absent (v : Z) (levels : list Z) :
  ~ In v levels -> zsum (map (indicator v) levels) = 0%Z.
Proof.
  induction levels as [|l levels IH]; simpl; intros Hnot; [reflexivity|].
  unfold indicator at 1. destruct (l =? v)%Z eqn:E.
  - apply Z.eqb_eq in E. exfalso. apply Hnot. now left.
  - rewrite IH; [reflexivity | intros H; apply Hnot; now right].
Qed.

Lemma zsum_indicator_sorted (v : Z) (levels : list Z) :
  StronglySorted Z.lt levels -> In v levels ->
  zsum (map (indicator v) levels) = 1%Z.
Proof.
  intros Hs. induction Hs as [|l levels Hs IH Hl]; intros Hin; [contradiction|].
  simpl. unfold indicator at 1. destruct (l =? v)%Z eqn:E.
  - apply Z.eqb_eq in E. subst l. rewrite zsum_indicator_absent; [reflexivity|].
    intros H. rewrite Forall_forall in Hl. specialize (Hl v H). lia.
  - apply Z.eqb_neq in E. destruct Hin as [Heq | Hin]; [congruence|].
    now rewrite IH.
Qed.

(** X17.  The dummy columns are a one-hot encoding: there is one column per
    distinct value, in increasing order, the rows keep their labels, and
    each row holds a single 1, in the column of its own value, and 0
    elsewhere. *)
Theorem get_dummies_one_hot :
  forall column,
    let levels := sorted_unique (map snd column) in
    StronglySorted Z.lt levels /\
    (forall v, In v levels <-> In v (map snd column)) /\
    List.length (fst (get_dummies column)) = List.length levels /\
    index (snd (get_dummies column)) = index column /\
    (forall k row, In (k, row) (snd (get_dummies column)) ->
       exists v, In (k, v) column /\
                 row = map (indicator v) levels /\
                 zsum row = 1%Z).
Proof.
  intros column levels. subst levels. split; [apply sorted_unique_sorted|].
  split; [intros v; apply In_sorted_unique|].
  split; [unfold get_dummies; simpl; now rewrite length_map|].
  split; [unfold get_dummies, index; simpl; now rewrite map_map|].
  intros k row Hin. unfold get_dummies in Hin. simpl in Hin.
  apply in_map_iff in Hin. destruct Hin as [[k' v] [Heq Hin]].
  simpl in Heq. inversion Heq; subst. exists v.
  split; [assumption|]. split; [reflexivity|].
  apply zsum_indicator_sorted; [apply sorted_unique_sorted|].
  apply In_sorted_unique, in_map_iff. now exists (k, v).
Qed.

(** * The three groups of coefficients *)

Lemma startswith_Is (feature : string) :
  startswith feature "Is_" = true -> startswith feature "Is" = true.
Proof.
  destruct feature as [|a [|b [|c feature]]]; simpl; try discriminate;
    rewrite !andb_true_iff; intuition.
Qed.

Lemma coef_group (feature : string) :
  (startswith feature "Is" = true -> startswith feature "Is_" = true) ->
  (user_coef feature = true /\ genre_coef feature = false
   /\ decade_coef feature = false) \/
  (user_coef feature = false /\ genre_coef feature = true
   /\ decade_coef feature = false) \/
  (user_coef feature = false /\ genre_coef feature = false
   /\ decade_coef feature = true).
Proof.
  intros H. unfold user_coef, genre_coef, decade_coef.
  destruct (startswith feature "Is_") eqn:E3.
  - rewrite (startswith_Is _ E3). simpl.
    destruct (contains "19" feature), (contains "20" feature); simpl; auto.
  - destruct (startswith feature "Is") eqn:E2; [specialize (H eq_refl); congruence|].
    simpl. auto.
Qed.

Lemma select_cons {A} (mask : string -> bool) (r : string * A) coefs :
  select mask (r :: coefs)
  = if mask (fst r) then r :: select mask coefs else select mask coefs.
Proof. reflexivity. Qed.

(** X18.  The three selections of the coefficient frame never overlap, and
    together they hold every coefficient once, as long as no feature name
    begins with "Is" without the underscore; a feature so named is in none
    of the three. *)
Theorem coef_groups_partition :
  forall {A} (coefs : list (string * A)),
    (forall r, In r (select user_coef coefs) ->
       ~ In r (select genre_coef coefs) /\ ~ In r (select decade_coef coefs)) /\
    (forall r, In r (select genre_coef coefs) ->
       ~ In r (select decade_coef coefs)) /\
    (forall r, In r coefs ->
       startswith (fst r) "Is" = true -> startswith (fst r) "Is_" = false ->
       ~ In r (select user_coef coefs ++ select genre_coef coefs
               ++ select decade_coef coefs)) /\
    ((forall r, In r coefs ->
        startswith (fst r) "Is" = true -> startswith (fst r) "Is_" = true) ->
     Permutation (select user_coef coefs ++ select genre_coef coefs
                  ++ select decade_coef coefs) coefs).
Proof.
  intros A coefs. split; [|split; [|split]].
  - intros r Hu. unfold select in *. rewrite !filter_In in *.
    destruct Hu as [_ Hu]. unfold user_coef, genre_coef, decade_coef in *.
    destruct (startswith (fst r) "Is_") eqn:E3.
    + rewrite (startswith_Is _ E3) in Hu. discriminate.
    + simpl. split; intros [_ H]; discriminate.
  - intros r Hg. unfold select in *. rewrite !filter_In in *.
    destruct Hg as [_ Hg]. unfold genre_coef, decade_coef in *.
    destruct (startswith (fst r) "Is_"); [|discriminate].
    destruct (contains "19" (fst r)), (contains "20" (fst r));
      simpl in *; try discriminate.
    intros [_ H]. discriminate.
  - intros r _ H2 H3 Hin. unfold select in Hin.
    rewrite !in_app_iff, !filter_In in Hin.
    unfold user_coef, genre_coef, decade_coef in Hin. rewrite H2, H3 in Hin.
    simpl in Hin. intuition discriminate.
  - induction coefs as [|r coefs IH]; intros H; [constructor|].
    rewrite !select_cons.
    assert (H' : forall r', In r' coefs ->
                   startswith (fst r') "Is" = true ->
                   startswith (fst r') "Is_" = true)
      by (intros r' Hr'; apply H; now right).
    specialize (IH H').
    destruct (coef_group (fst r) (H r (or_introl eq_refl)))
      as [[-> [-> ->]] | [[-> [-> ->]] | [-> [-> ->]]]].
    + simpl. now apply perm_skip.
    + symmetry. apply Permutation_cons_app. now symmetry.
    + symmetry. rewrite app_assoc. apply Permutation_cons_app.
      rewrite <- app_assoc. now symmetry.
Qed.

(** ** The notebook's own columns *)

Lemma genre_names_checked :
  forallb (fun word => genre_coef ("Is_" ++ word)%string) words_to_check = true.
Proof. vm_compute. reflexivity. Qed.

Lemma decade_names_checked :
  forallb (fun q => decade_coef ("Is_" ++ str_float (10 * Z.of_nat q))%string)
          (seq 190 20) = true.
Proof. vm_compute. reflexivity. Qed.

Lemma decade_name_filed (year : Z) :
  (1900 <= year < 2100)%Z ->
  decade_coef ("Is_" ++ str_float (decade year))%string = true.
Proof.
  intros Hy. unfold decade.
  assert (Hq : (190 <= year / 10 <= 209)%Z) by (Z.div_mod_to_equations; lia).
  assert (Hin : In (Z.to_nat (year / 10)) (seq 190 20)) by (apply in_seq; lia).
  assert (H := proj1 (forallb_forall _ _) decade_names_checked _ Hin).
  cbv beta in H. rewrite Z2Nat.id in H by lia. exact H.
Qed.

(** X19.  The columns the notebook builds fall in the groups meant for
    them: every genre column, "Is_" and a word of [words_to_check], is
    selected with the genres, and when the years lie from 1900 to 2099
    every decade column is selected with the decades. *)
Theorem notebook_columns_filed :
  (forall genres name flag,
      In (name, flag) (genre_flags genres) -> genre_coef name = true) /\
  (forall year name,
      (forall k y, In (k, y) year -> (1900 <= y < 2100)%Z) ->
      In name (fst (decade_dummies year)) -> decade_coef name = true).
Proof.
  split.
  - intros genres name flag Hin. unfold genre_flags in Hin.
    apply in_map_iff in Hin. destruct Hin as [word [Heq Hw]].
    inversion Heq; subst.
    exact (proj1 (forallb_forall _ _) genre_names_checked _ Hw).
  - intros year name Hyears Hin. unfold decade_dummies, get_dummies in Hin.
    simpl in Hin. apply in_map_iff in Hin. destruct Hin as [level [<- Hl]].
    apply (proj1 (In_sorted_unique _ _)) in Hl.
    rewrite map_map in Hl. simpl in Hl.
    apply in_map_iff in Hl. destruct Hl as [[k y] [<- Hky]]. simpl.
    apply decade_name_filed. eapply Hyears; eassumption.
Qed.

(** * Sparsity and row means *)

Lemma isnull_count_le (df : DataFrame (list (option Q))) (ncols : nat) :
  rectangular df ncols -> (isnull_count df <= List.length df * ncols)%nat.
Proof.
  unfold isnull_count. intros Hrect.
  eapply Nat.le_trans; [apply filter_length_le|].
  induction df as [|[k row] df IH]; simpl; [lia|].
  rewrite length_app, (Hrect k row (or_introl eq_refl)).
  assert (List.length (flat_map snd df) <= List.length df * ncols)%nat.
  { apply IH. intros k' row' Hin. apply (Hrect k' row'). now right. }
  lia.
Qed.

Lemma isnull_count_zero (df : DataFrame (list (option Q))) :
  isnull_count df = 0%nat <-> complete df.
Proof.
  unfold isnull_count, complete. split.
  - intros H k row Hin Hnone.
    assert (Hf : In None (filter (fun c : option Q =>
                                    match c with None => true | Some _ => false end)
                                 (flat_map snd df))).
    { apply filter_In. split; [|reflexivity].
      apply in_flat_map. now exists (k, row). }
    destruct (filter _ (flat_map snd df)); [exact Hf | discriminate].
  - intros Hc.
    destruct (filter _ (flat_map snd df)) as [|c l] eqn:E; [reflexivity|].
    exfalso.
    assert (Hin : In c (c :: l)) by now left.
    rewrite <- E in Hin. apply filter_In in Hin. destruct Hin as [Hin Hnone].
    destruct c; [discriminate|].
    apply in_flat_map in Hin. destruct Hin as [[k row] [Hrow Hcell]].
    exact (Hc k row Hrow Hcell).
Qed.

(** X20.  On a frame whose rows all have the frame's number of columns, the
    share of missing entries, when it is a number, lies between 0 and 1, and
    it is 0 exactly when no entry is missing; it is NaN exactly when the
    frame has no cell. *)
Theorem NaN_share_bounds :
  forall df ncols,
    rectangular df ncols ->
    (NaN_share df ncols = None <-> (List.length df * ncols = 0)%nat) /\
    (forall s, NaN_share df ncols = Some s ->
       0 <= s <= 1 /\ (s == 0 <-> complete df)).
Proof.
  intros df ncols Hrect. unfold NaN_share.
  assert (Hle := isnull_count_le df ncols Hrect).
  destruct (List.length df * ncols)%nat as [|n] eqn:En.
  - split; [tauto | discriminate].
  - split; [split; discriminate|].
    intros s Hs. inversion Hs; subst; clear Hs.
    assert (Hpos : 0 < inject_Z (Z.of_nat (S n))).
    { change 0 with (inject_Z 0). rewrite <- Zlt_Qlt. lia. }
    assert (Hc : 0 <= inject_Z (Z.of_nat (isnull_count df))).
    { change 0 with (inject_Z 0). rewrite <- Zle_Qle. lia. }
    assert (Hcn : inject_Z (Z.of_nat (isnull_count df))
                  <= inject_Z (Z.of_nat (S n))).
    { rewrite <- Zle_Qle. lia. }
    split; [split|].
    + apply Qle_shift_div_l; [exact Hpos | rewrite Qmult_0_l; exact Hc].
    + apply Qle_shift_div_r; [exact Hpos | rewrite Qmult_1_l; exact Hcn].
    + rewrite <- isnull_count_zero. split.
      * intros Hz.
        assert (H0 : inject_Z (Z.of_nat (isnull_count df)) == 0).
        { rewrite <- (Qmult_div_r (inject_Z (Z.of_nat (isnull_count df)))
                                  (inject_Z (Z.of_nat (S n))))
            by (intros Hz0; rewrite Hz0 in Hpos; exact (Qlt_irrefl _ Hpos)).
          rewrite Hz. ring. }
        unfold Qeq in H0. simpl in H0. lia.
      * intros ->. simpl. unfold Qdiv. ring.
Qed.

Lemma rectangular_ABD : rectangular user_ratings_ABD 2.
Proof.
  intros k row [H | [H | [H | []]]]; inversion H; reflexivity.
Qed.

(** Two of the six ratings of the example are missing. *)
Lemma NaN_share_bounds_witness :
  0 <= 2 # 6 <= 1 /\ (2 # 6 == 0 <-> complete user_ratings_ABD).
Proof.
  apply (proj2 (NaN_share_bounds user_ratings_ABD 2 rectangular_ABD)).
  reflexivity.
Defined.

Lemma average_bounds (lo hi : Q) (l : list Q) :
  l <> [] -> Forall (fun v => lo <= v <= hi) l -> lo <= average l <= hi.
Proof.
  intros Hne Hall. assert (Hn := length_pos_inject l Hne).
  assert (Hsum : inject_Z (Z.of_nat (List.length l)) * lo <= qsum l
                 <= inject_Z (Z.of_nat (List.length l)) * hi).
  { clear Hne Hn. induction Hall as [|v l Hv Hl IH].
    - simpl. change (inject_Z 0) with 0. rewrite !Qmult_0_l.
      split; apply Qle_refl.
    - cbn [qsum fold_right List.length]. fold (qsum l).
      rewrite Nat2Z.inj_succ, <- Z.add_1_r, inject_Z_plus.
      change (inject_Z 1) with 1.
      remember (inject_Z (Z.of_nat (List.length l))) as c eqn:Ec. clear Ec.
      lra. }
  unfold average. split.
  - apply Qle_shift_div_l; [exact Hn | rewrite Qmult_comm; exact (proj1 Hsum)].
  - apply Qle_shift_div_r; [exact Hn | rewrite Qmult_comm; exact (proj2 Hsum)].
Qed.

Lemma In_present (row : list (option Q)) (v : Q) :
  In v (present row) <-> In (Some v) row.
Proof.
  unfold present. rewrite in_flat_map. split.
  - intros [[x|] [Hin Hv]]; [|contradiction].
    destruct Hv as [-> | []]. exact Hin.
  - intros Hin. exists (Some v). split; [exact Hin | now left].
Qed.

(** X21.  The mean of a row of ratings skips the missing ones: it is NaN
    exactly when the row holds no rating, and otherwise it lies within any
    bounds that hold for the ratings of the row. *)
Theorem row_mean_bounds :
  forall row,
    (row_mean row = None <-> forall v, ~ In (Some v) row) /\
    (forall lo hi m,
       (forall v, In (Some v) row -> lo <= v <= hi) ->
       row_mean row = Some m -> lo <= m <= hi).
Proof.
  intros row. unfold row_mean. split.
  - destruct (present row) as [|v vs] eqn:E.
    + split; [|reflexivity]. intros _ v Hv.
      apply In_present in Hv. now rewrite E in Hv.
    + split; [discriminate|]. intros H. exfalso. apply (H v).
      apply In_present. rewrite E. now left.
  - intros lo hi m Hall Hm.
    destruct (present row) as [|v vs] eqn:E; [discriminate|].
    inversion Hm; subst. apply average_bounds; [discriminate|].
    rewrite <- E. apply Forall_forall. intros x Hx. apply Hall.
    now apply In_present.
Qed.

Lemma row_mean_bounds_witness :
  (1 # 2) <= 4 <= 5.
Proof.
  apply (proj2 (row_mean_bounds [Some 4; None]) (1 # 2) 5 4).
  - intros v [H | [H | []]]; inversion H; subst; lra.
  - vm_compute. reflexivity.
Defined.

(** * The largest errors *)

Lemma Forall_insert_asc (P : label * Q -> Prop) (x : label * Q) (l : DataFrame Q) :
  P x -> Forall P l -> Forall P (insert_asc x l).
Proof.
  intros Hx Hl. induction Hl as [|y l Hy Hl IH]; simpl.
  - constructor; [assumption | constructor].
  - destruct (Qle_bool (snd x) (snd y)).
    + constructor; [assumption|]. now constructor.
    + constructor; assumption.
Qed.

Lemma insert_asc_sorted (x : label * Q) (l : DataFrame Q) :
  StronglySorted (fun a b => snd a <= snd b) l ->
  StronglySorted (fun a b => snd a <= snd b) (insert_asc x l).
Proof.
  intros Hs. induction Hs as [|y l Hs IH Hy]; simpl.
  - constructor; constructor.
  - destruct (Qle_bool (snd x) (snd y)) eqn:E.
    + apply Qle_bool_iff in E. constructor; [now constructor|].
      constructor; [exact E|].
      rewrite Forall_forall in *. intros z Hz. specialize (Hy z Hz).
      now apply Qle_trans with (snd y).
    + constructor; [assumption|].
      apply Forall_insert_asc; [|assumption].
      apply Qlt_le_weak, Qnot_le_lt.
      intros Hle. apply Qle_bool_iff in Hle. congruence.
Qed.

Lemma sort_values_asc_sorted (l : DataFrame Q) :
  StronglySorted (fun a b => snd a <= snd b) (sort_values_asc l).
Proof.
  induction l as [|x l IH]; simpl; [constructor | now apply insert_asc_sorted].
Qed.

Lemma Permutation_insert_asc (x : label * Q) (l : DataFrame Q) :
  Permutation (insert_asc x l) (x :: l).
Proof.
  induction l as [|y l IH]; simpl; [reflexivity|].
  destruct (Qle_bool (snd x) (snd y)); [reflexivity|].
  rewrite IH. apply perm_swap.
Qed.

Lemma Permutation_sort_values_asc (l : DataFrame Q) :
  Permutation (sort_values_asc l) l.
Proof.
  induction l as [|x l IH]; simpl; [reflexivity|].
  rewrite Permutation_insert_asc. now apply perm_skip.
Qed.

Lemma StronglySorted_app {A} (R : A -> A -> Prop) (l1 l2 : list A) :
  StronglySorted R l1 -> StronglySorted R l2 ->
  (forall x y, In x l1 -> In y l2 -> R x y) ->
  StronglySorted R (l1 ++ l2).
Proof.
  intros H1 H2 H12. induction H1 as [|x l1 H1 IH Hx]; simpl; [assumption|].
  constructor.
  - apply IH. intros a b Ha Hb. apply H12; [now right | assumption].
  - apply Forall_app. split; [assumption|].
    apply Forall_forall. intros y Hy. apply H12; [now left | assumption].
Qed.

Lemma StronglySorted_map {A B} (R : A -> A -> Prop) (R' : B -> B -> Prop)
    (f : A -> B) (l : list A) :
  (forall a b, R a b -> R' (f a) (f b)) ->
  StronglySorted R l -> StronglySorted R' (map f l).
Proof.
  intros Hf Hs. induction Hs as [|x l Hs IH Hx]; simpl; constructor.
  - exact IH.
  - rewrite Forall_forall in *. intros y Hy. apply in_map_iff in Hy.
    destruct Hy as [a [<- Ha]]. apply Hf, Hx, Ha.
Qed.

Lemma StronglySorted_firstn_skipn {A} (R : A -> A -> Prop) (l : list A) (n : nat) :
  StronglySorted R l ->
  forall x y, In x (firstn n l) -> In y (skipn n l) -> R x y.
Proof.
  intros Hs. revert n. induction Hs as [|a l Hs IH Ha]; intros n x y Hx Hy.
  - destruct n; contradiction.
  - destruct n as [|n]; [contradiction|]. simpl in Hx, Hy.
    destruct Hx as [<- | Hx].
    + rewrite Forall_forall in Ha. apply Ha.
      rewrite <- (firstn_skipn n l). apply in_or_app. now right.
    + now apply (IH n).
Qed.

Lemma nan_rows_sorted (ascending : bool) (col : DataFrame (option Q)) :
  StronglySorted (before_na ascending) (nan_rows col).
Proof.
  unfold nan_rows. induction col as [|r col IH]; simpl; [constructor|].
  destruct (snd r) eqn:E; [exact IH|]. constructor; [exact IH|].
  apply Forall_forall. intros y Hy. apply filter_In in Hy.
  destruct Hy as [_ Hy]. unfold before_na. rewrite E.
  destruct (snd y); [discriminate | exact I].
Qed.

Lemma sort_values_na_sorted (ascending : bool) (col : DataFrame (option Q)) :
  StronglySorted (before_na ascending) (sort_values_na ascending col).
Proof.
  unfold sort_values_na. apply StronglySorted_app.
  - destruct ascending.
    + eapply StronglySorted_map; [|apply sort_values_asc_sorted].
      intros a b Hab. exact Hab.
    + eapply StronglySorted_map; [|apply sort_values_desc_sorted].
      intros a b Hab. exact Hab.
  - apply nan_rows_sorted.
  - intros x y _ Hy. unfold nan_rows in Hy. apply filter_In in Hy.
    destruct Hy as [_ Hy]. unfold before_na.
    destruct (snd y); [discriminate|]. now destruct (snd x).
Qed.

Lemma Permutation_numeric_nan (col : DataFrame (option Q)) :
  Permutation (map (fun r => (fst r, Some (snd r))) (numeric_rows col)
               ++ nan_rows col) col.
Proof.
  unfold numeric_rows, nan_rows.
  induction col as [|[k [v|]] col IH]; simpl; [constructor | |].
  - now apply perm_skip.
  - symmetry. apply Permutation_cons_app. now symmetry.
Qed.

Lemma Permutation_sort_values_na (ascending : bool) (col : DataFrame (option Q)) :
  Permutation (sort_values_na ascending col) col.
Proof.
  unfold sort_values_na.
  eapply Permutation_trans; [|apply Permutation_numeric_nan].
  apply Permutation_app_tail, Permutation_map.
  destruct ascending;
    [apply Permutation_sort_values_asc | apply Permutation_sort_values_desc].
Qed.

(** X22.  Sorting the errors and taking the head shows the extreme ones:
    the sorted column holds every row of the error column once; the head
    has five rows, or all of them when there are fewer; and no row left out
    has a smaller error than a row shown when the order is ascending, nor a
    larger one when it is descending.  A row whose error is NaN comes after
    all rows with a number. *)
Theorem error_ranking :
  forall score_pred ascending,
    let sorted := sort_values_na ascending (diff_column score_pred) in
    Permutation sorted (diff_column score_pred) /\
    List.length (head sorted) = Nat.min 5 (List.length score_pred) /\
    (forall x y, In x (head sorted) -> In y (skipn 5 sorted) ->
                 before_na ascending x y).
Proof.
  intros score_pred ascending sorted. subst sorted.
  assert (Hperm := Permutation_sort_values_na ascending (diff_column score_pred)).
  split; [exact Hperm|]. split.
  - unfold head. rewrite length_firstn, (Permutation_length Hperm).
    unfold diff_column. now rewrite length_map.
  - unfold head. apply StronglySorted_firstn_skipn, sort_values_na_sorted.
Qed.

(** * The rest of the notebook on example frames *)

(** The tags of album A, joined again. *)
Lemma genres_df_rows_witness :
  exists df,
    genres_df metadata_genres = ok df /\
    (forall k, In k (index df) <-> In k (index metadata_genres)) /\
    (NoDup (index metadata_genres) ->
     forall k g, In (k, g) metadata_genres ->
       map snd (rows_at df k) = split g /\
       join (map snd (rows_at df k)) = g).
Proof.
  apply (proj2 (genres_df_rows metadata_genres)). discriminate.
Defined.

Lemma decade_window_witness : 1990%Z = decade 1994.
Proof.
  apply (proj2 (proj2 (decade_window 1994))).
  - reflexivity.
  - lia.
Defined.

(** The row of album B has its 1 in the column of the 1970s. *)
Lemma get_dummies_one_hot_witness :
  exists v,
    In ("B", v) (map (fun r => (fst r, decade (snd r))) metadata_year) /\
    [1%Z; 0%Z]
    = map (indicator v)
          (sorted_unique
             (map snd (map (fun r => (fst r, decade (snd r))) metadata_year))) /\
    zsum [1%Z; 0%Z] = 1%Z.
Proof.
  apply (proj2 (proj2 (proj2 (proj2
           (get_dummies_one_hot
              (map (fun r => (fst r, decade (snd r))) metadata_year)))))
           "B" [1%Z; 0%Z]).
  simpl. auto.
Defined.

(** One user, one genre and one decade coefficient. *)
Lemma coef_groups_partition_witness :
  Permutation (select user_coef coefs_example ++ select genre_coef coefs_example
               ++ select decade_coef coefs_example) coefs_example.
Proof.
  apply (proj2 (proj2 (proj2 (coef_groups_partition coefs_example)))).
  intros r [H | [H | [H | []]]] Hs; subst r; simpl in *;
    try discriminate; reflexivity.
Defined.

(** The decade column of an album of 1994. *)
Lemma notebook_columns_filed_witness :
  decade_coef "Is_1990.0" = true.
Proof.
  apply (proj2 notebook_columns_filed [("A", 1994%Z)] "Is_1990.0").
  - intros k y [H | []]. inversion H. lia.
  - simpl. auto.
Defined.

(** The most overrated album of the example against one that is left out of
    the head. *)
Lemma error_ranking_witness :
  before_na true ("B", Some (-3)) ("D", Some 4).
Proof.
  apply (proj2 (proj2 (error_ranking score_pred_example true))).
  - vm_compute. auto.
  - vm_compute. auto.
Defined.

(** * The held-out score *)

Lemma index_set_score (my_ratings : DataFrame Q) (k : label) (v : Q) :
  index (set_score my_ratings k v) = index my_ratings.
Proof.
  unfold index, set_score. rewrite map_map. apply map_ext.
  intros [k0 v0]. simpl. destruct (String.eqb k0 k); reflexivity.
Qed.

Lemma training_targets_set_score (my_ratings : DataFrame Q) (k : label) (v : Q) :
  training_targets (set_score my_ratings k v) k = training_targets my_ratings k.
Proof.
  unfold training_targets, set_score.
  induction my_ratings as [|[k0 v0] my_ratings IH]; simpl; [reflexivity|].
  destruct (String.eqb k0 k) eqn:E; simpl; rewrite E; simpl;
    now rewrite IH.
Qed.

Lemma all_folds_inv (f : label -> result Q) (ks : list label) (ps : list Q) :
  all_folds f ks = ok ps ->
  List.length ps = List.length ks /\
  (forall k p, In (k, p) (combine ks ps) -> f k = ok p).
Proof.
  revert ps. induction ks as [|k0 ks IH]; intros ps H.
  - simpl in H. unfold ok in H. inversion H. simpl. split; [reflexivity | tauto].
  - simpl in H. destruct (f k0) as [e|p0] eqn:E0; [discriminate|].
    destruct (all_folds f ks) as [e|ps0] eqn:E; [discriminate|].
    simpl in H. unfold ok in H. inversion H; subst.
    destruct (IH ps0 eq_refl) as [Hlen Hall]. split; [simpl; now rewrite Hlen|].
    intros k p [Heq | Hin]; [inversion Heq; subst; exact E0 | now apply Hall].
Qed.

Lemma In_combine_key (ks : list label) (ps : list Q) (k : label) :
  List.length ps = List.length ks -> In k ks ->
  exists p, In (k, p) (combine ks ps).
Proof.
  revert ps. induction ks as [|k0 ks IH]; intros [|p0 ps] Hlen Hin;
    simpl in *; try contradiction; try discriminate.
  destruct Hin as [-> | Hin]; [exists p0; now left|].
  destruct (IH ps) as [p Hp]; [lia | assumption|]. exists p. now right.
Qed.

Section HeldOutScore.

Variable Model : Type.
Variable fit :
  Model -> DataFrame (list Q) -> DataFrame Q -> result Model.
Variable predict : Model -> DataFrame (list Q) -> result (list Q).

Lemma fold_prediction_set_score (m0 : Model) data_f my_ratings k v :
  fold_prediction fit predict m0 data_f (set_score my_ratings k v) k
  = fold_prediction fit predict m0 data_f my_ratings k.
Proof.
  unfold fold_prediction, training_features.
  now rewrite index_set_score, training_targets_set_score.
Qed.

Lemma loocv_regression_lookup data my_ratings fill (w w' : World Model) res k :
  (forall m m' X y, fit m X y = fit m' X y) ->
  NoDup (index my_ratings) -> In k (index my_ratings) ->
  loocv_regression fit predict data my_ratings fill w = (ok res, w') ->
  exists p,
    lookup res k = Some p /\
    fold_prediction fit predict (model w) (fillna data fill) my_ratings k = ok p.
Proof.
  intros Hreset Hnd Hk H.
  assert (Hall := loocv_regression_ok_present Model fit predict _ _ _ _ _ _ H).
  assert (Hperm := loocv_regression_ok_index Model fit predict _ _ _ _ _ _ H).
  unfold loocv_regression, bind in H.
  assert (Hind := for_each_independent Model fit predict (fillna data fill)
                    my_ratings (index my_ratings) (model w) Hreset Hall
                    (fun k Hk => Hk) ([], []) w).
  destruct (for_each fit predict (fillna data fill) my_ratings
              (index my_ratings) ([], []) w) as [[e|acc] w1]; [discriminate|].
  unfold ret in H. inversion H; subst. simpl in Hind.
  destruct (all_folds (fold_prediction fit predict (model w) (fillna data fill)
                         my_ratings) (index my_ratings)) as [e|ps] eqn:E;
    simpl in Hind; [discriminate|].
  unfold ok in Hind. injection Hind as Hacc. subst acc. simpl in *.
  destruct (all_folds_inv _ _ _ E) as [Hlen Hfolds].
  destruct (In_combine_key _ _ k Hlen Hk) as [p Hp].
  exists p. split; [|now apply Hfolds].
  apply lookup_In.
  - eapply Permutation_NoDup; [symmetry; exact Hperm | exact Hnd].
  - eapply Permutation_in; [symmetry; apply Permutation_sort_values_desc|].
    exact Hp.
Qed.

(** X24.  The prediction for an album never depends on that album's own
    score: when [fit] does not read what the object held before and the
    target keys do not repeat, two calls that return, on target vectors
    that differ only in the score of album [k], predict the same value for
    [k]. *)
Theorem loocv_regression_no_leakage :
  (forall m m' X y, fit m X y = fit m' X y) ->
  forall data my_ratings fill (w w1 w2 : World Model) k v res res',
    NoDup (index my_ratings) -> In k (index my_ratings) ->
    loocv_regression fit predict data my_ratings fill w = (ok res, w1) ->
    loocv_regression fit predict data (set_score my_ratings k v) fill w
    = (ok res', w2) ->
    lookup res' k = lookup res k.
Proof.
  intros Hreset data my_ratings fill w w1 w2 k v res res' Hnd Hk H H'.
  destruct (loocv_regression_lookup _ _ _ _ _ _ _ Hreset Hnd Hk H)
    as [p [Hp Hfold]].
  assert (Hnd' : NoDup (index (set_score my_ratings k v)))
    by now rewrite index_set_score.
  assert (Hk' : In k (index (set_score my_ratings k v)))
    by now rewrite index_set_score.
  destruct (loocv_regression_lookup _ _ _ _ _ _ _ Hreset Hnd' Hk' H')
    as [p' [Hp' Hfold']].
  rewrite fold_prediction_set_score, Hfold in Hfold'. unfold ok in Hfold'.
  rewrite Hp, Hp'. congruence.
Qed.

End HeldOutScore.

(** Album B's score changed from 2 to 5: the prediction for B stays 2, the
    average of the scores of A and C. *)
Lemma loocv_regression_no_leakage_witness :
  lookup (sort_values_desc [("A", 4); ("B", 2); ("C", 3)]) "B"
  = lookup [("A", 5 # 2); ("B", 2); ("C", 3 # 2)] "B".
Proof.
  apply (loocv_regression_no_leakage MeanModel.t MeanModel.fit MeanModel.predict
           (fun m m' X y => eq_refl) features_ABC target_ABC 2 world0
           (snd (loocv_regression MeanModel.fit MeanModel.predict
                   features_ABC target_ABC 2 world0))
           (snd (loocv_regression MeanModel.fit MeanModel.predict
                   features_ABC (set_score target_ABC "B" 5) 2 world0))
           "B" 5).
  - repeat constructor; simpl; intuition discriminate.
  - simpl. auto.
  - reflexivity.
  - reflexivity.
Defined.

(** * The full feature matrix *)

Lemma rows_at_unique {A} (df : DataFrame A) (k : label) :
  NoDup (index df) -> In k (index df) ->
  exists v, rows_at df k = [(k, v)] /\ lookup df k = Some v.
Proof.
  intros Hnd Hk. destruct (index_In df k Hk) as [v Hv]. exists v.
  assert (Hl := lookup_In df k v Hnd Hv). split; [|exact Hl].
  assert (Hidx := index_rows_at_unique df k Hnd Hk).
  unfold lookup in Hl. destruct (rows_at df k) as [|[k1 v1] [|r rs]];
    simpl in *; try discriminate.
  inversion Hidx; inversion Hl; subst. reflexivity.
Qed.

Lemma loc_unique_rows (df : DataFrame (list (option Q))) (labels : list label) :
  NoDup (index df) -> (forall k, In k labels -> In k (index df)) ->
  flat_map (rows_at df) labels = map (fun k => (k, row_at df k)) labels.
Proof.
  intros Hnd Hall. induction labels as [|k ks IH]; simpl; [reflexivity|].
  destruct (rows_at_unique df k Hnd (Hall k (or_introl eq_refl))) as [v [Hr Hl]].
  rewrite Hr. unfold row_at at 1. rewrite Hl. simpl. f_equal.
  apply IH. intros k' Hk'. apply Hall. now right.
Qed.

Lemma combine_index_map {A B} (df : DataFrame A) (f : label -> B) :
  combine df (map (fun k => (k, f k)) (index df))
  = map (fun r => (r, (fst r, f (fst r)))) df.
Proof.
  induction df as [|r df IH]; simpl; [reflexivity | now rewrite IH].
Qed.

Lemma full_data_present user_ratings metadata_features ncols_user ncols_metadata :
  NoDup (index metadata_features) ->
  (forall k, In k (index user_ratings) -> In k (index metadata_features)) ->
  full_data user_ratings metadata_features ncols_user ncols_metadata
  = ok (map (fun r => (fst r, snd r ++ row_at metadata_features (fst r)))
            user_ratings).
Proof.
  intros Hnd Hall. unfold full_data.
  rewrite (loc_present _ _ Hall), (loc_unique_rows _ _ Hnd Hall).
  cbn [rbind ok]. unfold concat_columns.
  assert (Hidx : index (map (fun k => (k, row_at metadata_features k))
                            (index user_ratings)) = index user_ratings).
  { unfold index. rewrite !map_map. apply map_ext. reflexivity. }
  rewrite Hidx, index_equals_refl.
  rewrite (combine_index_map user_ratings (row_at metadata_features)).
  now rewrite map_map.
Qed.

(** X25.  The full feature matrix never pairs rows of different albums: an
    album of [user_ratings] without metadata makes the construction raise
    [KeyError]; and when every album has metadata and the metadata labels
    do not repeat, the matrix has the index of [user_ratings] and each of
    its rows is the album's row of ratings followed by the album's own row
    of metadata features. *)
Theorem full_data_rows :
  forall user_ratings metadata_features ncols_user ncols_metadata,
    (forall k, In k (index user_ratings) -> ~ In k (index metadata_features) ->
       full_data user_ratings metadata_features ncols_user ncols_metadata
       = raise KeyError) /\
    (NoDup (index metadata_features) ->
     (forall k, In k (index user_ratings) -> In k (index metadata_features)) ->
     full_data user_ratings metadata_features ncols_user ncols_metadata
     = ok (map (fun r => (fst r, snd r ++ row_at metadata_features (fst r)))
               user_ratings)).
Proof.
  intros user_ratings metadata_features ncols_user ncols_metadata. split.
  - intros k Hin Hnot. unfold full_data.
    now rewrite (loc_missing _ _ k Hin Hnot).
  - apply full_data_present.
Qed.

Lemma full_data_rows_witness :
  full_data [("A", [Some 4; None]); ("B", [None; Some 3])]
            metadata_features_AB 2 2
  = ok (map (fun r => (fst r, snd r ++ row_at metadata_features_AB (fst r)))
            [("A", [Some 4; None]); ("B", [None; Some 3])]).
Proof.
  apply (proj2 (full_data_rows [("A", [Some 4; None]); ("B", [None; Some 3])]
                  metadata_features_AB 2 2)).
  - repeat constructor; simpl; intuition discriminate.
  - intros k [<- | [<- | []]]; simpl; auto.
Defined.

(** X26.  After the cleaning, the full feature matrix and the cleaned
    target vector list the same albums in the same order, when no frame
    repeats a label and every album kept has metadata: the single fit on all
    albums, which pairs rows by position, pairs each album's features with
    its own score. *)
Theorem full_fit_aligned :
  forall albums (my_ratings : DataFrame Q)
         (user_ratings metadata_features : DataFrame (list (option Q)))
         ncols_user ncols_metadata,
    lists_intersection albums (index user_ratings) (index my_ratings) ->
    NoDup (index my_ratings) -> NoDup (index user_ratings) ->
    NoDup (index metadata_features) ->
    (forall k, In k albums -> In k (index metadata_features)) ->
    exists my' user' X,
      clean albums my_ratings user_ratings = ok (my', user') /\
      full_data user' metadata_features ncols_user ncols_metadata = ok X /\
      index (fillna X 2) = index my' /\
      (forall k v, In (k, v) my' -> In (k, v) my_ratings) /\
      (forall k row, In (k, row) X ->
         exists ratings, In (k, ratings) user_ratings /\
                         row = ratings ++ row_at metadata_features k).
Proof.
  intros albums my_ratings user_ratings metadata_features ncols_user
         ncols_metadata [Hnd Hin] Hmy Huser Hmeta Hall.
  assert (Hm : forall k, In k albums -> In k (index my_ratings))
    by (intros k Hk; now apply Hin).
  assert (Hu : forall k, In k albums -> In k (index user_ratings))
    by (intros k Hk; now apply Hin).
  exists (flat_map (rows_at my_ratings) albums),
         (flat_map (rows_at user_ratings) albums).
  assert (Hiu : index (flat_map (rows_at user_ratings) albums) = albums)
    by now apply index_loc_unique.
  assert (Him : index (flat_map (rows_at my_ratings) albums) = albums)
    by now apply index_loc_unique.
  eexists. split; [|split; [|split; [|split]]].
  - unfold clean. now rewrite (loc_present _ _ Hm), (loc_present _ _ Hu).
  - apply full_data_present; [exact Hmeta|].
    intros k Hk. rewrite Hiu in Hk. now apply Hall.
  - rewrite index_fillna.
    transitivity (index (flat_map (rows_at user_ratings) albums));
      [|now rewrite Hiu, Him].
    unfold index. rewrite map_map. apply map_ext. reflexivity.
  - intros k v H. apply in_flat_map in H. destruct H as [k' [_ H]].
    now apply In_rows_at in H.
  - intros k row H. apply in_map_iff in H. destruct H as [[k' r] [Heq H]].
    simpl in Heq. inversion Heq; subst. exists r. split; [|reflexivity].
    apply in_flat_map in H. destruct H as [k'' [_ H]].
    now apply In_rows_at in H.
Qed.

(** The example frames, cleaned, with the metadata of albums A and B. *)
Lemma full_fit_aligned_witness :
  exists my' user' X,
    clean ["A"; "B"] my_ratings_ABC user_ratings_ABD = ok (my', user') /\
    full_data user' metadata_features_AB 2 2 = ok X /\
    index (fillna X 2) = index my' /\
    (forall k v, In (k, v) my' -> In (k, v) my_ratings_ABC) /\
    (forall k row, In (k, row) X ->
       exists ratings, In (k, ratings) user_ratings_ABD /\
                       row = ratings ++ row_at metadata_features_AB k).
Proof.
  apply (full_fit_aligned ["A"; "B"] my_ratings_ABC user_ratings_ABD
           metadata_features_AB 2 2).
  - exact (intersection_lists (index user_ratings_ABD) (index my_ratings_ABC)).
  - repeat constructor; simpl; intuition discriminate.
  - repeat constructor; simpl; intuition discriminate.
  - repeat constructor; simpl; intuition discriminate.
  - intros k [<- | [<- | []]]; simpl; auto.
Defined.
